(** * flappy-face: the leaderboard and avatar server (server.js)

    A shallow embedding of the request handlers of [server.js]: the
    username normalisation, the [leaderboard] table with its three
    query shapes (upsert, rank, listing) and the avatar directory.

    - JavaScript strings are sequences of UTF-16 code units ([list N]);
      regular expressions without the [u] flag work on code units.
    - [String.prototype.toLowerCase] is the Unicode case mapping of the
      engine; it is a parameter of the development ([Section Server]),
      and the only fact ever used about it is that it leaves a string of
      characters of [[a-z0-9_-]] alone.
    - The SQLite table is the list of its rows; [updated_at] is TEXT and
      is compared bytewise, as SQLite's BINARY collation does.
    - The clock ([new Date().toISOString()]) is an input of the handler
      that reads it.
    - A finite JavaScript number is a rational; [best] holds integers.
    - SQLite and the file system do not fail: the [catch] branches
      are reached only by a non-integer LIMIT and by a field that
      cannot be read ([postScoreRoute]). *)

From Stdlib Require Import ZArith NArith QArith Qround Qminmax List String Ascii Bool Lia.
From stdpp Require Import base option list sorting gmap.

(** ** JavaScript values, strings and numbers *)

Module JS.

Local Open Scope N_scope.

(** A string is its sequence of UTF-16 code units. *)
Abbreviation jsstring := (list N).

(** A Rocq literal read as a (Latin-1) JavaScript string. *)
Definition lit (s : string) : jsstring :=
  map N_of_ascii (list_ascii_of_string s).

(** The values a request field can hold here: absent, [null], a
    boolean or a string. [Str s] stands as well for any other value
    that [String()] turns into [s]. A field that cannot be read or
    converted at all (the conversion throws) is not a [value]; see
    [read] below. *)
Inductive value :=
| Undefined
| Null
| Boolean (b : bool)
| Str (s : jsstring).

(** [String(input || "")]: a falsy input gives the empty string. *)
Definition stringOrEmpty (input : value) : jsstring :=
  match input with
  | Undefined | Null | Boolean false => []
  | Boolean true => lit "true"
  | Str s => s
  end.

(** WhiteSpace and LineTerminator of ECMAScript: what [trim] strips
    and what [\s] matches. *)
Definition isWhiteSpace (c : N) : bool :=
  (c =? 0x09) || (c =? 0x0A) || (c =? 0x0B) || (c =? 0x0C) || (c =? 0x0D)
  || (c =? 0x20) || (c =? 0xA0) || (c =? 0x1680)
  || ((0x2000 <=? c) && (c <=? 0x200A))
  || (c =? 0x2028) || (c =? 0x2029) || (c =? 0x202F) || (c =? 0x205F)
  || (c =? 0x3000) || (c =? 0xFEFF).

Fixpoint trimStart (s : jsstring) : jsstring :=
  match s with
  | [] => []
  | c :: r => if isWhiteSpace c then trimStart r else s
  end.

Definition trimEnd (s : jsstring) : jsstring := rev (trimStart (rev s)).

Definition trim (s : jsstring) : jsstring := trimEnd (trimStart s).

(** [s.replace(/\s+/g, "-")]: every maximal run of white space becomes
    one hyphen. [inRun] tells that the previous unit was white space. *)
Fixpoint replaceSpaceRuns (inRun : bool) (s : jsstring) : jsstring :=
  match s with
  | [] => []
  | c :: r =>
      if isWhiteSpace c
      then (if inRun then replaceSpaceRuns true r
            else 0x2D :: replaceSpaceRuns true r)
      else c :: replaceSpaceRuns false r
  end.

(** The class [[a-z0-9_-]]. *)
Definition isNameChar (c : N) : bool :=
  ((0x61 <=? c) && (c <=? 0x7A)) || ((0x30 <=? c) && (c <=? 0x39))
  || (c =? 0x5F) || (c =? 0x2D).

(** [s.replace(/[^a-z0-9_-]/g, "")]. *)
Definition stripOthers (s : jsstring) : jsstring := List.filter isNameChar s.

(** A JavaScript number: NaN, an infinity, or a finite value (every
    finite double is a rational). *)
Inductive number :=
| NaN
| PosInfinity
| NegInfinity
| Finite (q : Q).

Definition isFinite (x : number) : bool :=
  match x with Finite _ => true | _ => false end.

(** [x < 0]. *)
Definition isNegative (x : number) : bool :=
  match x with
  | NegInfinity => true
  | Finite q => if Qlt_le_dec q 0 then true else false
  | _ => false
  end.

(** The case mapping of the ASCII letters, which [toLowerCase] is on
    strings of ASCII characters. *)
Definition asciiLower (s : jsstring) : jsstring :=
  map (fun c => if (0x41 <=? c) && (c <=? 0x5A) then c + 0x20 else c) s.

End JS.

Import JS.

(** What a handler sends back: [res.json(body)], or a status 400 or 500
    with [{ ok: false, error }]. *)
Inductive response (A : Type) :=
| Ok200 (body : A)
| Err400 (error : string)
| Err500 (error : string).

Arguments Ok200 {A} body.
Arguments Err400 {A} error.
Arguments Err500 {A} error.

Definition status {A} (r : response A) : Z :=
  match r with
  | Ok200 _ => 200%Z
  | Err400 _ => 400%Z
  | Err500 _ => 500%Z
  end.

Section Server.

(** [String.prototype.toLowerCase]. *)
Variable toLowerCase : jsstring -> jsstring.

(** ** Helpers *)

(** The [cleaned] of [safeUsername]. *)
Definition cleanUsername (input : value) : jsstring :=
  let raw := toLowerCase (trim (stringOrEmpty input)) in
  stripOthers (replaceSpaceRuns false raw).

Definition safeUsername (input : value) : jsstring :=
  match cleanUsername input with
  | [] => lit "player"
  | cleaned => cleaned
  end.

(** [encodeURIComponent], used only to build the URL of a reply. *)
Variable encodeURIComponent : jsstring -> jsstring.

(** ** The leaderboard table

    [CREATE TABLE leaderboard (username TEXT PRIMARY KEY,
      best INTEGER NOT NULL DEFAULT 0, updated_at TEXT NOT NULL)] *)

Record row := Row {
  username : jsstring;
  best : Z;
  updated_at : string
}.

#[global] Instance row_eq_dec : EqDecision row.
Proof. solve_decision. Defined.

Abbreviation table := (list row).

(** [SELECT ... FROM leaderboard WHERE username = ?] through [dbGet]:
    the first matching row, or [undefined]. *)
Definition selectByUsername (u : jsstring) (tbl : table) : option row :=
  List.find (fun r => bool_decide (username r = u)) tbl.

(** [UPDATE leaderboard SET best = ?, updated_at = ? WHERE username = ?] *)
Definition updateRow (newBest : Z) (now : string) (u : jsstring) (tbl : table) : table :=
  map (fun r => if bool_decide (username r = u) then Row (username r) newBest now else r) tbl.

(** [INSERT INTO leaderboard (username, best, updated_at) VALUES (?, ?, ?)] *)
Definition insertRow (u : jsstring) (newBest : Z) (now : string) (tbl : table) : table :=
  tbl ++ [Row u newBest now].

(** [SELECT COUNT( * ) AS total FROM leaderboard] *)
Definition countAll (tbl : table) : nat := length tbl.

(** The condition [best > ? OR (best = ? AND updated_at < ?)] on a row. *)
Definition aheadCond (b : Z) (u : string) (r : row) : bool :=
  (b <? best r)%Z || ((best r =? b)%Z && String.ltb (updated_at r) u).

(** [SELECT COUNT( * ) AS ahead FROM leaderboard WHERE ...] *)
Definition countAhead (b : Z) (u : string) (tbl : table) : nat :=
  length (List.filter (aheadCond b u) tbl).

(** [ORDER BY best DESC, updated_at ASC]: [x] may come before [y].
    SQLite leaves the order of rows that agree on both columns open;
    the sort below keeps them in table order. *)
Definition orderBy (x y : row) : Prop :=
  (best y < best x)%Z \/
  (best x = best y /\ String.leb (updated_at x) (updated_at y) = true).

#[global] Instance orderBy_dec : RelDecision orderBy.
Proof. intros x y. unfold orderBy. apply _. Defined.

Definition selectOrdered (tbl : table) : table := merge_sort orderBy tbl.

(** ** POST /api/score: save a score (upsert, keep the maximum) *)

Record score_body := ScoreBody {
  sb_username : jsstring;
  sb_best : Z
}.

Definition postScore (usernameField : value) (scoreNum : number) (now : string)
    (tbl : table) : response score_body * table :=
  let username := safeUsername usernameField in
  match username with
  | [] => (Err400 "Missing username", tbl)
  | _ =>
    match scoreNum with
    | Finite q =>
      if Qlt_le_dec q 0 then (Err400 "Invalid score", tbl)
      else
        let existing := selectByUsername username tbl in
        let existingBest := match existing with Some e => best e | None => 0%Z end in
        let newBest := Z.max existingBest (Qfloor q) in
        let tbl' :=
          match existing with
          | Some _ => updateRow newBest now username tbl
          | None => insertRow username newBest now tbl
          end in
        (Ok200 (ScoreBody username newBest), tbl')
    | _ => (Err400 "Invalid score", tbl)
    end
  end.

(** ** GET /api/rank *)

Record rank_body := RankBody {
  rb_username : jsstring;
  rb_rank : option nat;
  rb_total : nat;
  rb_best : option Z
}.

Definition getRank (usernameQuery : value) (tbl : table) : response rank_body :=
  let username := safeUsername usernameQuery in
  match username with
  | [] => Err400 "Missing username"
  | _ =>
    let total := countAll tbl in
    match selectByUsername username tbl with
    | None => Ok200 (RankBody username None total None)
    | Some me =>
      let ahead := countAhead (best me) (updated_at me) tbl in
      Ok200 (RankBody username (Some (ahead + 1)%nat) total (Some (best me)))
    end
  end.

(** ** GET /api/leaderboard

    [limit] is 20 when the query gives no finite number and is clamped
    to [1, 50] otherwise. SQLite refuses a LIMIT that is not an integer,
    and the handler answers 500 then. *)

Definition clampLimit (limitRaw : number) : Q :=
  match limitRaw with
  | Finite q => Qmax 1 (Qmin 50 q)
  | _ => 20
  end.

Definition getLeaderboard (limitRaw : number) (tbl : table) : response table :=
  let limit := clampLimit limitRaw in
  if Qeq_bool (inject_Z (Qfloor limit)) limit
  then Ok200 (take (Z.to_nat (Qfloor limit)) (selectOrdered tbl))
  else Err500 "Failed to load leaderboard".

(** ** The avatar directory ([uploads/avatars])

    The directory is a finite map from file names to file contents. *)

Record upload := Upload {
  mimetype : jsstring;
  content : list N
}.

(** The multipart form of an upload with at most one file part, sent
    under the field [avatar]. multer names the file when the
    file part arrives, from the fields read so far
    ([usernameAtFile]); the handler reads the complete body
    ([usernameField]). A body with a file part under another field or
    with a second file part is not an [avatar_form]. *)
Record avatar_form := AvatarForm {
  usernameAtFile : value;
  usernameField : value;
  avatarFile : option upload
}.

Abbreviation directory := (gmap (list N) (list N)).

(** [limits: { fileSize: 5 * 1024 * 1024 }] *)
Definition fileSizeLimit : N := (5 * 1024 * 1024)%N.

Definition avatarFilename (u : jsstring) : jsstring := u ++ lit ".png".

Definition avatarUrl (u : jsstring) : jsstring :=
  lit "/avatars/" ++ encodeURIComponent u ++ lit ".png".

(** POST /api/upload-avatar: [uploadAvatar.single("avatar")] writes the
    file under [avatarStorage]'s name, whatever its MIME type, and then
    the handler answers. A file over the size limit makes multer remove
    what it wrote and fail the request. *)
Definition postUploadAvatar (form : avatar_form) (dir : directory)
    : response jsstring * directory :=
  match avatarFile form with
  | None => (Err400 "Missing avatar file", dir)
  | Some f =>
    let name := avatarFilename (safeUsername (usernameAtFile form)) in
    if (fileSizeLimit <? N.of_nat (length (content f)))%N
    then (Err500 "File too large", delete name dir)
    else
      let username := safeUsername (usernameField form) in
      (Ok200 (avatarUrl username), <[name := content f]> dir)
  end.

(** GET /api/avatar *)
Definition getAvatar (usernameQuery : value) (dir : directory)
    : response (option jsstring) :=
  let username := safeUsername usernameQuery in
  match dir !! avatarFilename username with
  | Some _ => Ok200 (Some (avatarUrl username))
  | None => Ok200 None
  end.

(** ** The server as a whole *)

Record server := Server {
  leaderboard : table;
  avatars : directory
}.

Definition initial : server := Server [] ∅.

Inductive request :=
| PostScore (usernameField : value) (scoreNum : number) (now : string)
| PostUploadAvatar (form : avatar_form)
| GetRank (usernameQuery : value)
| GetLeaderboard (limitRaw : number)
| GetAvatar (usernameQuery : value).

(** The state a request leaves behind. *)
Definition handle (s : server) (r : request) : server :=
  match r with
  | PostScore u x now => Server (snd (postScore u x now (leaderboard s))) (avatars s)
  | PostUploadAvatar form => Server (leaderboard s) (snd (postUploadAvatar form (avatars s)))
  | GetRank _ | GetLeaderboard _ | GetAvatar _ => s
  end.

Definition run (rs : list request) (s : server) : server := fold_left handle rs s.

(** The states the server can be in: those some sequence of requests
    leads to from the empty database and directory. *)
Definition reachable (s : server) : Prop := exists rs, run rs initial = s.

End Server.

(** ** The MIME filter of the earlier upload route

    The first version of the server (kept in the repository) hands
    multer this [fileFilter]; a file it refuses is never written and the
    request ends in the error handler with status 400. *)
Module Legacy.

Definition allowed : list jsstring :=
  [lit "image/png"; lit "image/jpeg"; lit "image/jpg"; lit "image/webp"].

(** [cb(null, true)] is [inl tt], [cb(new Error(msg))] is [inr msg]. *)
Definition fileFilter (f : upload) : unit + string :=
  if bool_decide (mimetype f ∈ allowed) then inl tt
  else inr "Only PNG, JPG, or WEBP images are allowed."%string.

(** The class [[a-z0-9_-]] under the [i] flag: the letters of both
    cases, the digits, [_] and [-]. *)
Definition isNameCharI (c : N) : bool :=
  (((0x61 <=? c) && (c <=? 0x7A)) || ((0x41 <=? c) && (c <=? 0x5A))
   || ((0x30 <=? c) && (c <=? 0x39)) || (c =? 0x5F) || (c =? 0x2D))%N.

(** [ch.replace(/[^a-z0-9_-]/gi, "_")], the [safeChar] of the storage's
    [filename]. *)
Definition safeChar (ch : jsstring) : jsstring :=
  map (fun c => if isNameCharI c then c else 0x5F%N) ch.

(** The part of the stored file's name before its extension:
    [safeChar] of [String(req.body.character || "").trim()]. *)
Definition fileStem (character : value) : jsstring :=
  safeChar (trim (stringOrEmpty character)).

End Legacy.

(** ** Normal form of a username *)

(** A string over [[a-z0-9_-]]. *)
Definition nameString (s : jsstring) : Prop :=
  Forall (fun c => isNameChar c = true) s.

(** What [safeUsername] produces: a non-empty string over [[a-z0-9_-]]. *)
Definition normalized (u : jsstring) : Prop := u <> [] /\ nameString u.

(** The invariants of the two stores: one row per username (the
    PRIMARY KEY), every key in normal form; every avatar file named
    after a key in normal form. *)
Definition tableOk (tbl : list row) : Prop :=
  NoDup (username <$> tbl) /\ Forall (fun r => normalized (username r)) tbl.

Definition directoryOk (dir : gmap (list N) (list N)) : Prop :=
  forall name, is_Some (dir !! name) ->
    exists u, normalized u /\ name = avatarFilename u.

(** The rows the rank rule of the specification counts for [me]: a
    greater [best], or the same [best] and an earlier [updated_at]. *)
Definition ranksAhead (me r : row) : Prop :=
  (best me < best r)%Z \/
  (best r = best me /\ String.compare (updated_at r) (updated_at me) = Lt).

#[global] Instance ranksAhead_dec me r : Decision (ranksAhead me r).
Proof. unfold ranksAhead. apply _. Defined.

(** The (best, updated_at) pair the ordering rule looks at. *)
Definition sortKey (r : row) : Z * string := (best r, updated_at r).

(** Timestamps and names of the examples. *)
Definition t1 : string := "2024-05-01T10:00:00.000Z".
Definition t2 : string := "2024-05-01T10:05:00.000Z".
Definition t3 : string := "2024-05-01T10:10:00.000Z".
Definition alice : jsstring := lit "alice".
Definition bob : jsstring := lit "bob".
Definition carol : jsstring := lit "carol".

(** The requests of the running example. *)
Definition threeSubmissions : list request :=
  [PostScore (Str (lit " Alice ")) (Finite 10) t1;
   PostScore (Str bob) (Finite 15.7) t2;
   PostScore (Str carol) (Finite 10) t3].


(** A small PNG and a text file. *)
Definition pngFile : upload := Upload (lit "image/png") [137; 80; 78; 71]%N.
Definition textFile : upload := Upload (lit "text/plain") [104; 105]%N.


(** ** The character faces ([uploads/faces]) *)

Definition CHARACTERS : list jsstring :=
  [lit "Broxton"; lit "Laurel"; lit "Hendrix"; lit "Maddox"; lit "Phoenix";
   lit "Dad"; lit "Mom"].

(** [String(req.body.character || "").trim()] *)
Definition characterOf (field : value) : jsstring := trim (stringOrEmpty field).

Definition faceFilename (name : jsstring) : jsstring := name ++ lit ".png".

(** An entry of the reply of GET /api/characters. *)
Record character_entry := CharacterEntry {
  ce_name : jsstring;
  ce_faceUrl : option jsstring
}.

(** The multipart form of a face upload with at most one file part,
    sent under the field [face]: the [character] field as read
    when the file part arrives ([characterAtFile]) and as the handler
    reads it from the complete body ([characterField]). A body with a
    file part under another field or with a second file part is not a
    [face_form]. *)
Record face_form := FaceForm {
  characterAtFile : value;
  characterField : value;
  faceFile : option upload
}.

Section Faces.

Variable encodeURIComponent : jsstring -> jsstring.

Definition faceUrl (name : jsstring) : jsstring :=
  lit "/faces/" ++ encodeURIComponent name ++ lit ".png".

Definition findFaceForCharacter (name : jsstring) (dir : gmap (list N) (list N))
    : option jsstring :=
  match dir !! faceFilename name with
  | Some _ => Some (faceUrl name)
  | None => None
  end.

(** GET /api/characters *)
Definition getCharacters (dir : gmap (list N) (list N)) : response (list character_entry) :=
  Ok200 (map (fun name => CharacterEntry name (findFaceForCharacter name dir)) CHARACTERS).

(** [uploadCharacterFace.single("face")]: [characterStorage] names the
    file after the character, or fails on a character outside
    [CHARACTERS]; a failure of multer ends the request with status 500
    before the handler runs. *)
Definition storeFace (form : face_form) (dir : gmap (list N) (list N))
    : string + gmap (list N) (list N) :=
  match faceFile form with
  | None => inr dir
  | Some f =>
    let character := characterOf (characterAtFile form) in
    if bool_decide (character ∈ CHARACTERS)
    then inr (<[faceFilename character := content f]> dir)
    else inl "Invalid character"%string
  end.

(** POST /api/upload-face. A file over the size limit makes multer
    remove what it wrote and fail the request. *)
Definition postUploadFace (form : face_form) (dir : gmap (list N) (list N))
    : response jsstring * gmap (list N) (list N) :=
  match storeFace form dir with
  | inl msg => (Err500 msg, dir)
  | inr dir' =>
    if match faceFile form with
       | Some f => (fileSizeLimit <? N.of_nat (length (content f)))%N
       | None => false
       end
    then (Err500 "File too large",
          delete (faceFilename (characterOf (characterAtFile form))) dir)
    else
      let character := characterOf (characterField form) in
      if bool_decide (character ∈ CHARACTERS)
      then (Ok200 (faceUrl character), dir')
      else (Err400 "Invalid character", dir')
  end.

(** The faces directory after a sequence of uploads. *)
Definition runFaces (forms : list face_form) (dir : gmap (list N) (list N))
    : gmap (list N) (list N) :=
  fold_left (fun d form => snd (postUploadFace form d)) forms dir.

End Faces.

(** ** Fields that cannot be read

    Reading [req.body.username] throws when the request has no parsed
    body, and [String(...)] of the username or [Number(...)] of the
    score throws for an object without a usable [toString] or
    [valueOf]. The handler runs inside [try] and its [catch] answers
    500. *)

Inductive read (A : Type) :=
| Got (a : A)
| Thrown.

Arguments Got {A} a.
Arguments Thrown {A}.

Section Routes.

Variable toLowerCase : jsstring -> jsstring.

(** POST /api/score with its [try] and [catch]: the username is read
    and normalised first, the score is converted next. *)
Definition postScoreRoute (usernameField : read value) (scoreNum : read number)
    (now : string) (tbl : list row) : response score_body * list row :=
  match usernameField, scoreNum with
  | Got u, Got x => postScore toLowerCase u x now tbl
  | _, _ => (Err500 "Failed to save score", tbl)
  end.

End Routes.

(** ** The history of a run *)

Section History.

Variable toLowerCase : jsstring -> jsstring.

(** The accepted submission a request is, if it is one: the key it is
    stored under, the floored score and the time. *)
Definition accepted (r : request) : option (jsstring * Z * string) :=
  match r with
  | PostScore uf (Finite q) now =>
      if Qlt_le_dec q 0 then None
      else Some (safeUsername toLowerCase uf, Qfloor q, now)
  | _ => None
  end.

(** The accepted submissions of a run for one key, in order. *)
Definition acceptedFor (u : jsstring) (rs : list request) : list (Z * string) :=
  omap (fun r =>
          match accepted r with
          | Some (v, b, now) => if bool_decide (v = u) then Some (b, now) else None
          | None => None
          end) rs.

(** The keys of the accepted submissions of a run, in order. *)
Definition acceptedNames (rs : list request) : list jsstring :=
  omap (fun r => (fun x => fst (fst x)) <$> accepted r) rs.

End History.

(** * Properties *)

(** ** The bytewise order on TEXT values *)

Module TextOrder.

Lemma ascii_compare_refl a : Ascii.compare a a = Eq.
Proof. unfold Ascii.compare. apply N.compare_refl. Qed.

Lemma ascii_compare_lt_trans a b c :
  Ascii.compare a b = Lt -> Ascii.compare b c = Lt -> Ascii.compare a c = Lt.
Proof.
  unfold Ascii.compare. rewrite !N.compare_lt_iff. lia.
Qed.

Lemma compare_refl s : String.compare s s = Eq.
Proof.
  induction s as [|a s IH]; simpl; [done|].
  by rewrite ascii_compare_refl.
Qed.

Lemma compare_lt_trans s1 : forall s2 s3,
  String.compare s1 s2 = Lt -> String.compare s2 s3 = Lt ->
  String.compare s1 s3 = Lt.
Proof.
  induction s1 as [|a s1 IH]; intros [|b s2] [|c s3]; simpl; try done.
  destruct (Ascii.compare a b) eqn:Hab; try done;
    destruct (Ascii.compare b c) eqn:Hbc; try done; intros H12 H23.
  - apply Ascii.compare_eq_iff in Hab, Hbc. subst.
    rewrite ascii_compare_refl. eauto.
  - apply Ascii.compare_eq_iff in Hab. subst. by rewrite Hbc.
  - apply Ascii.compare_eq_iff in Hbc. subst. by rewrite Hab.
  - by rewrite (ascii_compare_lt_trans a b c).
Qed.

Lemma ltb_lt s1 s2 : String.ltb s1 s2 = true <-> String.compare s1 s2 = Lt.
Proof. unfold String.ltb. destruct (String.compare s1 s2); split; done. Qed.

Lemma ltb_irrefl s : String.ltb s s = false.
Proof. unfold String.ltb. by rewrite compare_refl. Qed.

Lemma ltb_trans s1 s2 s3 :
  String.ltb s1 s2 = true -> String.ltb s2 s3 = true -> String.ltb s1 s3 = true.
Proof. rewrite !ltb_lt. apply compare_lt_trans. Qed.

(** [s1 <= s2] is [s1 < s2] or [s1 = s2]. *)
Lemma leb_ltb_or_eq s1 s2 :
  String.leb s1 s2 = true <-> String.ltb s1 s2 = true \/ s1 = s2.
Proof.
  unfold String.leb, String.ltb.
  destruct (String.compare s1 s2) eqn:Hc; split; try done; auto.
  - intros _. right. by apply String.compare_eq_iff.
  - intros [?| ->]; [done|]. by rewrite compare_refl in Hc.
Qed.

Lemma leb_trans s1 s2 s3 :
  String.leb s1 s2 = true -> String.leb s2 s3 = true -> String.leb s1 s3 = true.
Proof.
  rewrite !leb_ltb_or_eq. intros [H12| ->] [H23| ->]; eauto using ltb_trans.
Qed.

(** Strictly before one way excludes before-or-equal the other way. *)
Lemma ltb_not_leb s1 s2 :
  String.ltb s1 s2 = true -> String.leb s2 s1 = false.
Proof.
  rewrite ltb_lt. unfold String.leb.
  rewrite (String.compare_antisym s2 s1). by intros ->.
Qed.

End TextOrder.

(** ** Strings over the name alphabet pass every step unchanged *)

Module NameFacts.

Local Open Scope N_scope.

Ltac bool_arith :=
  unfold isNameChar, isWhiteSpace in *;
  repeat rewrite ?orb_true_iff, ?andb_true_iff, ?orb_false_iff, ?andb_false_iff,
    ?N.leb_le, ?N.eqb_eq, ?N.leb_gt, ?N.eqb_neq in *;
  lia.

Lemma nameChar_not_space c : isNameChar c = true -> isWhiteSpace c = false.
Proof. intros H. bool_arith. Qed.

Lemma nameChar_lower c :
  isNameChar c = true -> (if (0x41 <=? c) && (c <=? 0x5A) then c + 0x20 else c) = c.
Proof.
  intros H. destruct ((0x41 <=? c) && (c <=? 0x5A)) eqn:E; [|done].
  exfalso. bool_arith.
Qed.

Lemma nameString_app s1 s2 : nameString s1 -> nameString s2 -> nameString (s1 ++ s2).
Proof. unfold nameString. intros. by apply Forall_app. Qed.

Lemma nameString_rev s : nameString s -> nameString (rev s).
Proof.
  unfold nameString. rewrite !Forall_forall. intros H c Hc.
  apply H. by apply list_elem_of_In, in_rev, list_elem_of_In.
Qed.

Lemma trimStart_name s : nameString s -> trimStart s = s.
Proof.
  destruct 1 as [|c r Hc _]; simpl; [done|].
  by rewrite (nameChar_not_space c Hc).
Qed.

Lemma trim_name s : nameString s -> trim s = s.
Proof.
  intros H. unfold trim, trimEnd. rewrite (trimStart_name s H).
  rewrite (trimStart_name (rev s)) by by apply nameString_rev.
  apply rev_involutive.
Qed.

Lemma replaceSpaceRuns_name s : forall b, nameString s -> replaceSpaceRuns b s = s.
Proof.
  induction s as [|c r IH]; intros b H; simpl; [done|].
  inversion H as [|? ? Hc Hr]; subst.
  rewrite (nameChar_not_space c Hc). by rewrite IH.
Qed.

Lemma stripOthers_name s : nameString s -> stripOthers s = s.
Proof.
  unfold stripOthers. induction 1 as [|c r Hc Hr IH]; simpl; [done|].
  by rewrite Hc, IH.
Qed.

Lemma stripOthers_nameString s : nameString (stripOthers s).
Proof.
  unfold nameString, stripOthers. apply Forall_forall. intros c Hc.
  apply list_elem_of_In, filter_In in Hc. tauto.
Qed.

Lemma player_normalized : normalized (lit "player").
Proof. split; [done|]. unfold nameString. by repeat constructor. Qed.

Lemma asciiLower_name s : nameString s -> asciiLower s = s.
Proof.
  unfold asciiLower. induction 1 as [|c r Hc Hr IH]; simpl; [done|].
  by rewrite (nameChar_lower c Hc), IH.
Qed.

End NameFacts.

(** ** Counting the rows that satisfy a condition *)

Module CountFacts.

Section Count.

Context {A : Type} (P Q : A -> Prop) `{!forall x, Decision (P x)} `{!forall x, Decision (Q x)}.

Lemma count_bool (p : A -> bool) (l : list A) :
  (forall x, p x = true <-> P x) ->
  length (List.filter p l) = length (filter P l).
Proof.
  intros Hp. induction l as [|x l IH]; simpl; [done|].
  rewrite filter_cons. destruct (p x) eqn:E; case_decide as HP; simpl.
  - by rewrite IH.
  - by apply Hp in E.
  - apply Hp in HP. congruence.
  - done.
Qed.

Lemma count_le (l : list A) : length (filter P l) <= length l.
Proof.
  induction l as [|x l IH]; simpl; [done|].
  rewrite filter_cons. case_decide; simpl; lia.
Qed.

Lemma count_mono (l : list A) :
  (forall x, P x -> Q x) -> length (filter P l) <= length (filter Q l).
Proof.
  intros HPQ. induction l as [|x l IH]; simpl; [done|].
  rewrite !filter_cons. repeat case_decide; simpl; try lia.
  exfalso. auto.
Qed.

Lemma count_lt (l : list A) (a : A) :
  (forall x, P x -> Q x) -> a ∈ l -> Q a -> ~ P a ->
  length (filter P l) < length (filter Q l).
Proof.
  intros HPQ Ha HQ HP. induction l as [|x l IH]; [by apply elem_of_nil in Ha|].
  rewrite !filter_cons. apply elem_of_cons in Ha as [<-|Ha].
  - pose proof (count_mono l HPQ).
    repeat case_decide; simpl; try done. lia.
  - specialize (IH Ha). repeat case_decide; simpl; try lia.
    exfalso. auto.
Qed.

Lemma count_lt_length (l : list A) (a : A) :
  a ∈ l -> ~ P a -> length (filter P l) < length l.
Proof.
  intros Ha HP. induction l as [|x l IH]; [by apply elem_of_nil in Ha|].
  rewrite filter_cons. apply elem_of_cons in Ha as [<-|Ha].
  - pose proof (count_le l). case_decide; simpl; [done|lia].
  - specialize (IH Ha). case_decide; simpl; lia.
Qed.

Lemma count_none (l : list A) :
  (forall x, x ∈ l -> ~ P x) -> length (filter P l) = 0%nat.
Proof.
  induction l as [|x l IH]; intros Hall; [done|].
  rewrite filter_cons. case_decide as HP; [by apply Hall in HP; [|left]|].
  apply IH. intros y Hy. apply Hall. by right.
Qed.

Lemma count_all (l : list A) :
  (forall x, x ∈ l -> P x) -> length (filter P l) = length l.
Proof.
  induction l as [|x l IH]; intros Hall; [done|].
  rewrite filter_cons. case_decide as HP; [|by destruct HP; apply Hall; left].
  simpl. f_equal. apply IH. intros y Hy. apply Hall. by right.
Qed.

End Count.

End CountFacts.

(** ** The rank rule *)

Module RankRule.

Lemma aheadCond_spec me r :
  aheadCond (best me) (updated_at me) r = true <-> ranksAhead me r.
Proof.
  unfold aheadCond, ranksAhead.
  rewrite orb_true_iff, andb_true_iff, Z.ltb_lt, Z.eqb_eq, TextOrder.ltb_lt.
  tauto.
Qed.

Lemma countAhead_spec me tbl :
  countAhead (best me) (updated_at me) tbl = length (filter (ranksAhead me) tbl).
Proof.
  unfold countAhead. apply CountFacts.count_bool. apply aheadCond_spec.
Qed.

(** No row is ahead of itself. *)
Lemma ranksAhead_irrefl me : ~ ranksAhead me me.
Proof.
  unfold ranksAhead. rewrite TextOrder.compare_refl. intros [?|[_ ?]]; [lia|done].
Qed.

(** On a tie, whoever is ahead of the earlier row is ahead of the later. *)
Lemma ranksAhead_tie e1 e2 r :
  best e1 = best e2 ->
  String.compare (updated_at e1) (updated_at e2) = Lt ->
  ranksAhead e1 r -> ranksAhead e2 r.
Proof.
  unfold ranksAhead. intros Hb Hu [H|[H1 H2]].
  - left. lia.
  - right. split; [congruence|]. eauto using TextOrder.compare_lt_trans.
Qed.

End RankRule.

(** ** The listing order *)

Module Listing.

#[global] Instance orderBy_trans : Transitive orderBy.
Proof.
  intros x y z. unfold orderBy. intros [Hxy|[Hxy Lxy]] [Hyz|[Hyz Lyz]].
  - left. lia.
  - left. lia.
  - left. lia.
  - right. split; [congruence|]. eauto using TextOrder.leb_trans.
Qed.

#[global] Instance orderBy_total : Total orderBy.
Proof.
  intros x y. unfold orderBy.
  destruct (Z.lt_trichotomy (best x) (best y)) as [?|[E|?]]; [by right; left| |by left; left].
  destruct (String.leb_total (updated_at x) (updated_at y)); [left|right]; right; done.
Qed.

Lemma selectOrdered_perm tbl : selectOrdered tbl ≡ₚ tbl.
Proof. apply merge_sort_Permutation. Qed.

Lemma selectOrdered_sorted tbl : StronglySorted orderBy (selectOrdered tbl).
Proof. apply (StronglySorted_merge_sort orderBy). Qed.

(** A row that may come first and differs in its key is ahead. *)
Lemma before_distinct_ahead x e :
  orderBy x e -> sortKey x <> sortKey e -> ranksAhead e x.
Proof.
  unfold orderBy, ranksAhead, sortKey. intros [H|[Hb Hl]] Hk; [by left|].
  right. split; [done|]. apply TextOrder.ltb_lt.
  apply TextOrder.leb_ltb_or_eq in Hl as [Hl|Hl]; [done|]. congruence.
Qed.

(** A row that may come later is not ahead. *)
Lemma after_not_ahead e y : orderBy e y -> ~ ranksAhead e y.
Proof.
  unfold orderBy, ranksAhead. intros [H|[Hb Hl]] [H'|[Hb' Hl']]; try lia.
  apply TextOrder.ltb_lt, TextOrder.ltb_not_leb in Hl'. congruence.
Qed.

(** In a table without two rows of the same key, the rows ahead of the
    row at position [i] of the ordered table are the [i] rows before it. *)
Lemma position_counts_ahead tbl i e :
  NoDup (sortKey <$> tbl) ->
  selectOrdered tbl !! i = Some e ->
  length (filter (ranksAhead e) tbl) = i.
Proof.
  intros Hnd Hi.
  rewrite <- (selectOrdered_perm tbl) in Hnd.
  rewrite <- (selectOrdered_perm tbl).
  pose proof (selectOrdered_sorted tbl) as Hs.
  pose proof (lookup_lt_Some _ _ _ Hi) as Hlen.
  rewrite <- (take_drop_middle _ _ _ Hi) in Hnd, Hs |- *.
  set (l1 := take i (selectOrdered tbl)) in *.
  set (l2 := drop (S i) (selectOrdered tbl)) in *.
  assert (length l1 = i) as Hl1 by (unfold l1; rewrite length_take; lia).
  rewrite fmap_app, fmap_cons in Hnd.
  apply NoDup_app in Hnd as (_ & Hdisj & _).
  rewrite filter_app, filter_cons, length_app.
  rewrite CountFacts.count_all.
  - rewrite decide_False by apply RankRule.ranksAhead_irrefl.
    rewrite CountFacts.count_none; [lia|].
    intros y Hy. apply after_not_ahead.
    apply StronglySorted_app_1_r, StronglySorted_cons in Hs as [Hall _].
    by apply (proj1 (Forall_forall _ _) Hall).
  - intros x Hx. apply before_distinct_ahead.
    + apply (StronglySorted_app_1_elem_of _ _ _ _ _ Hs Hx). left.
    + intros Hk. apply (Hdisj (sortKey x)).
      * by apply list_elem_of_fmap_2.
      * rewrite Hk. left.
Qed.

End Listing.

(** ** The handlers *)

Section ServerFacts.

Variable toLowerCase : jsstring -> jsstring.
Variable encodeURIComponent : jsstring -> jsstring.

(** Lower-casing leaves a string over [[a-z0-9_-]] alone. *)
Hypothesis toLowerCase_name : forall s, nameString s -> toLowerCase s = s.

(** *** safeUsername *)

Lemma safeUsername_normalized input : normalized (safeUsername toLowerCase input).
Proof.
  unfold safeUsername.
  pose proof (NameFacts.stripOthers_nameString
    (replaceSpaceRuns false (toLowerCase (trim (stringOrEmpty input))))) as Hn.
  fold (cleanUsername toLowerCase input) in Hn.
  destruct (cleanUsername toLowerCase input) as [|c r] eqn:E.
  - apply NameFacts.player_normalized.
  - split; [done|exact Hn].
Qed.

Lemma safeUsername_not_nil input : safeUsername toLowerCase input <> [].
Proof. apply safeUsername_normalized. Qed.

Lemma cleanUsername_fixed u : nameString u -> cleanUsername toLowerCase (Str u) = u.
Proof.
  intros Hu. unfold cleanUsername. simpl.
  rewrite (NameFacts.trim_name u Hu), (toLowerCase_name u Hu).
  rewrite (NameFacts.replaceSpaceRuns_name u false Hu).
  by apply NameFacts.stripOthers_name.
Qed.

Lemma safeUsername_fixed u : normalized u -> safeUsername toLowerCase (Str u) = u.
Proof.
  intros [Hne Hu]. unfold safeUsername.
  rewrite (cleanUsername_fixed u Hu). by destruct u.
Qed.

(** *** Lookups in the table *)

Lemma select_Some u tbl r :
  selectByUsername u tbl = Some r -> r ∈ tbl /\ username r = u.
Proof.
  unfold selectByUsername. intros H. apply find_some in H as [Hin Hu].
  split; [by apply list_elem_of_In|]. by apply bool_decide_eq_true in Hu.
Qed.

Lemma select_None u tbl :
  selectByUsername u tbl = None -> forall r, r ∈ tbl -> username r <> u.
Proof.
  unfold selectByUsername. intros H r Hr Hu.
  apply list_elem_of_In in Hr.
  pose proof (find_none _ _ H r Hr) as Hf. simpl in Hf.
  by apply bool_decide_eq_false in Hf.
Qed.

Lemma select_update_same b now u tbl :
  selectByUsername u (updateRow b now u tbl)
  = (fun r => Row (username r) b now) <$> selectByUsername u tbl.
Proof.
  unfold selectByUsername, updateRow.
  induction tbl as [|r tbl IH]; simpl; [done|].
  destruct (decide (username r = u)) as [E|E].
  - rewrite (bool_decide_eq_true_2 _ E). simpl.
    by rewrite (bool_decide_eq_true_2 _ E).
  - rewrite (bool_decide_eq_false_2 _ E). by rewrite (bool_decide_eq_false_2 _ E).
Qed.

Lemma select_update_other b now u v tbl :
  v <> u -> selectByUsername v (updateRow b now u tbl) = selectByUsername v tbl.
Proof.
  intros Hv. unfold selectByUsername, updateRow.
  induction tbl as [|r tbl IH]; simpl; [done|].
  destruct (decide (username r = u)) as [E|E].
  - rewrite (bool_decide_eq_true_2 _ E). simpl.
    assert (username r <> v) as E' by congruence.
    by rewrite !(bool_decide_eq_false_2 _ E').
  - rewrite (bool_decide_eq_false_2 _ E). by rewrite IH.
Qed.

Lemma select_insert v u b now tbl :
  selectByUsername v (insertRow u b now tbl)
  = match selectByUsername v tbl with
    | Some r => Some r
    | None => if bool_decide (u = v) then Some (Row u b now) else None
    end.
Proof.
  unfold selectByUsername, insertRow.
  induction tbl as [|r tbl IH]; simpl; [done|].
  by destruct (bool_decide (username r = v)).
Qed.

(** What an accepted submission does. *)
Lemma postScore_accepted uf q now tbl :
  ~ (q < 0)%Q ->
  postScore toLowerCase uf (Finite q) now tbl
  = let u := safeUsername toLowerCase uf in
    let existing := selectByUsername u tbl in
    let newBest := Z.max (from_option best 0%Z existing) (Qfloor q) in
    (Ok200 (ScoreBody u newBest),
      match existing with
      | Some _ => updateRow newBest now u tbl
      | None => insertRow u newBest now tbl
      end).
Proof.
  intros Hq. unfold postScore.
  pose proof (safeUsername_not_nil uf) as Hne.
  destruct (safeUsername toLowerCase uf) as [|c r] eqn:E; [done|].
  destruct (Qlt_le_dec q 0) as [Hlt|_]; [done|].
  by destruct (selectByUsername (c :: r) tbl).
Qed.

(** A submission is either refused, with the table untouched, or has a
    finite score that is not negative. *)
Lemma postScore_cases uf x now tbl :
  (exists msg, postScore toLowerCase uf x now tbl = (Err400 msg, tbl))
  \/ (exists q, x = Finite q /\ ~ (q < 0)%Q).
Proof.
  unfold postScore. destruct (safeUsername toLowerCase uf); [eauto|].
  destruct x as [| | |q]; eauto.
  destruct (Qlt_le_dec q 0) as [?|Hge]; [eauto|].
  right. exists q. split; [done|]. by apply Qle_not_lt.
Qed.

Lemma updateRow_usernames b now u tbl :
  username <$> updateRow b now u tbl = username <$> tbl.
Proof.
  unfold updateRow. induction tbl as [|r tbl IH]; simpl; [done|].
  f_equal; [|exact IH]. by case_bool_decide.
Qed.

(** With one row per username, a row of the table is the row its
    username selects. *)
Lemma select_elem tbl e :
  NoDup (username <$> tbl) -> e ∈ tbl -> selectByUsername (username e) tbl = Some e.
Proof.
  unfold selectByUsername. induction tbl as [|r tbl IH]; intros Hnd He.
  - by apply elem_of_nil in He.
  - rewrite fmap_cons in Hnd. apply NoDup_cons in Hnd as [Hr Hnd]. simpl.
    apply elem_of_cons in He as [->|He].
    + by rewrite bool_decide_eq_true_2.
    + rewrite bool_decide_eq_false_2; [by apply IH|].
      intros E. apply Hr. rewrite E. by apply list_elem_of_fmap_2.
Qed.

(** *** The invariants of the stores *)

Lemma postScore_tableOk uf x now tbl :
  tableOk tbl -> tableOk (snd (postScore toLowerCase uf x now tbl)).
Proof.
  intros [Hnd Hall].
  destruct (postScore_cases uf x now tbl) as [[msg ->]|(q & -> & Hq)]; [done|].
  rewrite (postScore_accepted uf q now tbl Hq). simpl.
  destruct (selectByUsername (safeUsername toLowerCase uf) tbl) as [e|] eqn:He.
  - split; [by rewrite updateRow_usernames|].
    unfold updateRow. apply Forall_forall. intros r Hr.
    apply list_elem_of_In, in_map_iff in Hr as (r0 & <- & Hr0).
    apply list_elem_of_In in Hr0.
    pose proof (proj1 (Forall_forall _ _) Hall r0 Hr0). by case_bool_decide.
  - unfold insertRow. split.
    + rewrite fmap_app. apply NoDup_app. split; [done|]. split.
      * intros u Hu Hu'. apply list_elem_of_fmap in Hu as (r & -> & Hr).
        apply list_elem_of_singleton in Hu'. simpl in Hu'.
        by apply (select_None _ _ He r Hr).
      * apply NoDup_singleton.
    + apply Forall_app. split; [done|]. apply Forall_singleton.
      apply safeUsername_normalized.
Qed.

Lemma postUploadAvatar_directoryOk form dir :
  directoryOk dir ->
  directoryOk (snd (postUploadAvatar toLowerCase encodeURIComponent form dir)).
Proof.
  intros Hdir. unfold postUploadAvatar.
  destruct (avatarFile form) as [f|]; [|done].
  case_match; simpl; intros name Hname.
  - apply Hdir. rewrite lookup_delete in Hname. by case_decide; [destruct Hname|].
  - rewrite lookup_insert in Hname. case_decide as E; [|by apply Hdir].
    subst name. eexists. split; [apply safeUsername_normalized|done].
Qed.

Lemma handle_ok s r :
  tableOk (leaderboard s) /\ directoryOk (avatars s) ->
  tableOk (leaderboard (handle toLowerCase encodeURIComponent s r))
  /\ directoryOk (avatars (handle toLowerCase encodeURIComponent s r)).
Proof.
  intros [Ht Hd]. destruct r; simpl; try done.
  - split; [by apply postScore_tableOk|done].
  - split; [done|by apply postUploadAvatar_directoryOk].
Qed.

Lemma run_ok rs : forall s,
  tableOk (leaderboard s) /\ directoryOk (avatars s) ->
  tableOk (leaderboard (run toLowerCase encodeURIComponent rs s))
  /\ directoryOk (avatars (run toLowerCase encodeURIComponent rs s)).
Proof.
  induction rs as [|r rs IH]; intros s Hs; [done|].
  simpl. apply IH. by apply handle_ok.
Qed.

Lemma reachable_ok s :
  reachable toLowerCase encodeURIComponent s ->
  tableOk (leaderboard s) /\ directoryOk (avatars s).
Proof.
  intros [rs <-]. apply run_ok. simpl. split.
  - split; [apply NoDup_nil_2|apply Forall_nil_2].
  - intros name [x Hx]. by rewrite lookup_empty in Hx.
Qed.

(** *** POST /api/score *)

(** A submission whose score is not finite or is negative leaves the
    table as it was. *)
Lemma postScore_refused uf x now tbl :
  isFinite x && negb (isNegative x) = false ->
  snd (postScore toLowerCase uf x now tbl) = tbl.
Proof.
  intros Hx. unfold postScore.
  destruct (safeUsername toLowerCase uf); [done|].
  destruct x as [| | |q]; try done.
  simpl in Hx. by destruct (Qlt_le_dec q 0).
Qed.

(** C1 (as amended): when the username has an entry and the floored
    score does not exceed its stored best, the submission keeps the
    entry's username and best; an accepted submission (score finite and
    not negative) stamps the entry with the time of the submission, a
    rejected one leaves its updated_at as it was; the entries of all
    other usernames stay as they were. *)
Theorem resubmit_not_higher uf x now tbl e :
  selectByUsername (safeUsername toLowerCase uf) tbl = Some e ->
  (forall q, x = Finite q -> (Qfloor q <= best e)%Z) ->
  let tbl' := snd (postScore toLowerCase uf x now tbl) in
  selectByUsername (safeUsername toLowerCase uf) tbl'
    = Some (Row (username e) (best e)
              (if isFinite x && negb (isNegative x) then now else updated_at e))
  /\ forall v, v <> safeUsername toLowerCase uf ->
       selectByUsername v tbl' = selectByUsername v tbl.
Proof.
  intros He Hle.
  destruct (isFinite x && negb (isNegative x)) eqn:Hx.
  - destruct x as [| | |q]; try done. simpl in Hx.
    destruct (Qlt_le_dec q 0) as [|Hge]; [done|].
    assert (~ (q < 0)%Q) as Hq by (by apply Qle_not_lt).
    specialize (Hle q eq_refl).
    rewrite (postScore_accepted uf q now tbl Hq).
    simpl. rewrite He. simpl.
    rewrite (Z.max_l (best e) (Qfloor q)) by lia. split.
    + by rewrite select_update_same, He.
    + intros v Hv. by apply select_update_other.
  - rewrite (postScore_refused uf x now tbl Hx). simpl.
    split; [|done]. rewrite He. by destruct e.
Qed.

(** C3: after an accepted submission the username has an entry whose
    best is the best of the reply and is at least the best stored before
    (at least 0 when there was no entry). *)
Theorem best_never_decreases uf x now tbl body tbl' :
  postScore toLowerCase uf x now tbl = (Ok200 body, tbl') ->
  exists e',
    selectByUsername (safeUsername toLowerCase uf) tbl' = Some e'
    /\ best e' = sb_best body
    /\ match selectByUsername (safeUsername toLowerCase uf) tbl with
       | Some e => (best e <= best e')%Z
       | None => (0 <= best e')%Z
       end.
Proof.
  intros H.
  assert (exists q, x = Finite q /\ ~ (q < 0)%Q) as (q & -> & Hq).
  { unfold postScore in H.
    destruct (safeUsername toLowerCase uf); [done|].
    destruct x as [| | |q]; try done.
    destruct (Qlt_le_dec q 0) as [|Hge]; [done|].
    exists q. split; [done|]. by apply Qle_not_lt. }
  rewrite (postScore_accepted uf q now tbl Hq) in H. simpl in H.
  injection H as <- <-. simpl.
  destruct (selectByUsername (safeUsername toLowerCase uf) tbl) as [e|] eqn:He; simpl.
  - eexists. rewrite select_update_same, He. simpl.
    split; [done|]. simpl. split; [done|]. lia.
  - eexists. rewrite select_insert, He.
    rewrite bool_decide_eq_true_2 by done.
    split; [done|]. simpl. split; [done|]. lia.
Qed.

(** What the handler does reject: a submission is answered 400 exactly
    when the score is not finite or is negative, whatever the username
    field holds; a rejected submission leaves the table as it was, and
    every other submission is answered 200. The guard on the username
    tests the normalised name, which is never empty. *)
Lemma rejected_iff_bad_score uf x now tbl :
  (status (fst (postScore toLowerCase uf x now tbl)) = 400%Z
     <-> isFinite x = false \/ isNegative x = true)
  /\ (status (fst (postScore toLowerCase uf x now tbl)) = 400%Z ->
       snd (postScore toLowerCase uf x now tbl) = tbl)
  /\ (status (fst (postScore toLowerCase uf x now tbl)) <> 400%Z ->
       status (fst (postScore toLowerCase uf x now tbl)) = 200%Z).
Proof.
  destruct x as [| | |q].
  1-3: unfold postScore; destruct (safeUsername toLowerCase uf); simpl;
       (split; [split; [auto|done]|done]).
  simpl isFinite. simpl isNegative.
  destruct (Qlt_le_dec q 0) as [Hlt|Hge] eqn:Hd.
  - unfold postScore. destruct (safeUsername toLowerCase uf); simpl.
    + split; [split; [auto|done]|done].
    + rewrite Hd. simpl. split; [split; [auto|done]|done].
  - rewrite (postScore_accepted uf q now tbl) by by apply Qle_not_lt.
    simpl. split; [|done]. split; [done|]. by intros [|].
Qed.

(** *** GET /api/rank *)

(** The reply of the rank query, in the handler's own terms. *)
Lemma getRank_reply uq tbl :
  getRank toLowerCase uq tbl
  = let u := safeUsername toLowerCase uq in
    Ok200
      match selectByUsername u tbl with
      | Some me =>
          RankBody u (Some (countAhead (best me) (updated_at me) tbl + 1))
            (countAll tbl) (Some (best me))
      | None => RankBody u None (countAll tbl) None
      end.
Proof.
  unfold getRank. pose proof (safeUsername_not_nil uq) as Hne.
  destruct (safeUsername toLowerCase uq) as [|c r] eqn:E; [done|].
  simpl. by destruct (selectByUsername (c :: r) tbl).
Qed.

(** The rank the query reports for a username with an entry. *)
Lemma getRank_rank uq tbl me :
  selectByUsername (safeUsername toLowerCase uq) tbl = Some me ->
  getRank toLowerCase uq tbl
  = Ok200 (RankBody (safeUsername toLowerCase uq)
      (Some (1 + length (filter (ranksAhead me) tbl)))
      (length tbl) (Some (best me))).
Proof.
  intros H. rewrite getRank_reply. simpl. rewrite H.
  rewrite RankRule.countAhead_spec. do 2 f_equal. f_equal. lia.
Qed.

(** C2: the reply of the rank query. With an entry [me] for the
    username, the rank is one plus the number of rows with a greater
    best, or an equal best and an earlier updated_at; the total is the
    number of rows, with or without an entry. *)
Theorem rank_is_one_plus_count_ahead uq tbl :
  getRank toLowerCase uq tbl
  = Ok200
      match selectByUsername (safeUsername toLowerCase uq) tbl with
      | Some me =>
          RankBody (safeUsername toLowerCase uq)
            (Some (1 + length (filter (ranksAhead me) tbl)))
            (length tbl) (Some (best me))
      | None => RankBody (safeUsername toLowerCase uq) None (length tbl) None
      end.
Proof.
  destruct (selectByUsername (safeUsername toLowerCase uq) tbl) as [me|] eqn:H.
  - by apply getRank_rank.
  - rewrite getRank_reply. simpl. by rewrite H.
Qed.

(** C6: for a username without an entry the rank query answers 200 with
    rank null, best null and the number of rows as total. *)
Theorem rank_of_unknown_user uq tbl :
  selectByUsername (safeUsername toLowerCase uq) tbl = None ->
  getRank toLowerCase uq tbl
  = Ok200 (RankBody (safeUsername toLowerCase uq) None (length tbl) None).
Proof.
  intros H. rewrite getRank_reply. simpl. by rewrite H.
Qed.

(** C4: of two entries with the same best, the one updated strictly
    earlier gets the strictly smaller rank. *)
Theorem earlier_update_ranks_better uq1 uq2 tbl e1 e2 :
  selectByUsername (safeUsername toLowerCase uq1) tbl = Some e1 ->
  selectByUsername (safeUsername toLowerCase uq2) tbl = Some e2 ->
  best e1 = best e2 ->
  String.ltb (updated_at e1) (updated_at e2) = true ->
  exists b1 b2 n1 n2,
    getRank toLowerCase uq1 tbl = Ok200 b1 /\ rb_rank b1 = Some n1
    /\ getRank toLowerCase uq2 tbl = Ok200 b2 /\ rb_rank b2 = Some n2
    /\ n1 < n2.
Proof.
  intros H1 H2 Hb Hu. apply TextOrder.ltb_lt in Hu.
  do 4 eexists.
  rewrite (getRank_rank uq1 tbl e1 H1), (getRank_rank uq2 tbl e2 H2). simpl.
  repeat (split; [reflexivity|]).
  apply le_n_S.
  apply (CountFacts.count_lt _ _ tbl e1).
  - intros r. by apply RankRule.ranksAhead_tie.
  - by apply select_Some in H1 as [? _].
  - right. done.
  - apply RankRule.ranksAhead_irrefl.
Qed.

(** C5: the rank of an existing entry lies between 1 and the total;
    it is 1 when every other row has a strictly smaller best. *)
Theorem rank_bounds_and_top uq tbl me :
  selectByUsername (safeUsername toLowerCase uq) tbl = Some me ->
  exists n,
    getRank toLowerCase uq tbl
    = Ok200 (RankBody (safeUsername toLowerCase uq) (Some n) (length tbl)
               (Some (best me)))
    /\ 1 <= n <= length tbl
    /\ ((forall r, r ∈ tbl -> r <> me -> (best r < best me)%Z) -> n = 1%nat).
Proof.
  intros H. eexists. rewrite (getRank_rank uq tbl me H).
  split; [reflexivity|]. split.
  - split; [lia|].
    apply (CountFacts.count_lt_length (ranksAhead me) tbl me).
    + by apply select_Some in H as [? _].
    + apply RankRule.ranksAhead_irrefl.
  - intros Htop. rewrite CountFacts.count_none; [done|].
    intros r Hr Hah. destruct (decide (r = me)) as [->|Hne].
    + by apply RankRule.ranksAhead_irrefl in Hah.
    + specialize (Htop r Hr Hne). destruct Hah as [?|[? _]]; lia.
Qed.

(** *** GET /api/leaderboard against GET /api/rank *)

Lemma getLeaderboard_rows limitRaw tbl rows :
  getLeaderboard limitRaw tbl = Ok200 rows ->
  rows = take (Z.to_nat (Qfloor (clampLimit limitRaw))) (selectOrdered tbl).
Proof.
  unfold getLeaderboard. case_match; [|done]. by intros [= <-].
Qed.

(** C9: in a reachable state whose rows have pairwise distinct
    (best, updated_at) pairs, the row at position [i] (from 0) of a
    listing has rank [i + 1] in the rank query; and a listing whose
    limit is at least the number of rows holds every row. *)
Theorem listing_agrees_with_rank s limitRaw rows :
  reachable toLowerCase encodeURIComponent s ->
  NoDup (sortKey <$> leaderboard s) ->
  getLeaderboard limitRaw (leaderboard s) = Ok200 rows ->
  (forall i e, rows !! i = Some e ->
     getRank toLowerCase (Str (username e)) (leaderboard s)
     = Ok200 (RankBody (username e) (Some (S i)) (length (leaderboard s))
                (Some (best e))))
  /\ (length (leaderboard s) <= Z.to_nat (Qfloor (clampLimit limitRaw)) ->
      rows ≡ₚ leaderboard s).
Proof.
  intros Hreach Hkeys Hrows.
  apply reachable_ok in Hreach as [[Hnd Hall] _].
  apply getLeaderboard_rows in Hrows. subst rows. split.
  - intros i e Hi. apply lookup_take_Some in Hi as [Hi _].
    assert (e ∈ leaderboard s) as He.
    { rewrite <- (Listing.selectOrdered_perm (leaderboard s)).
      by apply list_elem_of_lookup_2 in Hi. }
    pose proof (proj1 (Forall_forall _ _) Hall e He) as Hnorm.
    pose proof (safeUsername_fixed _ Hnorm) as Hfix.
    rewrite (getRank_rank (Str (username e)) (leaderboard s) e).
    + rewrite Hfix. by rewrite (Listing.position_counts_ahead _ i e Hkeys Hi).
    + rewrite Hfix. by apply select_elem.
  - intros Hlen. rewrite take_ge.
    + apply Listing.selectOrdered_perm.
    + by rewrite (Permutation_length (Listing.selectOrdered_perm (leaderboard s))).
Qed.

(** *** Normal form of the stored keys *)

(** C10: [safeUsername] returns a non-empty string over [[a-z0-9_-]],
    the placeholder [player] when nothing survives the cleaning, and
    maps its own result to itself; so in every reachable state each
    username of the leaderboard and the name of each avatar file is in
    normal form. *)
Theorem safeUsername_normal_form :
  (forall input,
     normalized (safeUsername toLowerCase input)
     /\ (cleanUsername toLowerCase input = [] ->
         safeUsername toLowerCase input = lit "player")
     /\ safeUsername toLowerCase (Str (safeUsername toLowerCase input))
        = safeUsername toLowerCase input)
  /\ (forall s, reachable toLowerCase encodeURIComponent s ->
       (forall r, r ∈ leaderboard s ->
          safeUsername toLowerCase (Str (username r)) = username r)
       /\ (forall name, is_Some (avatars s !! name) ->
            exists u, name = avatarFilename u
                      /\ safeUsername toLowerCase (Str u) = u)).
Proof.
  split.
  - intros input. split; [apply safeUsername_normalized|]. split.
    + intros E. unfold safeUsername. by rewrite E.
    + apply safeUsername_fixed, safeUsername_normalized.
  - intros s Hs. apply reachable_ok in Hs as [[_ Hall] Hdir]. split.
    + intros r Hr. apply safeUsername_fixed.
      by apply (proj1 (Forall_forall _ _) Hall).
    + intros name Hname. destruct (Hdir name Hname) as (u & Hu & ->).
      exists u. split; [done|]. by apply safeUsername_fixed.
Qed.

End ServerFacts.

(** ** Concrete runs

    The runs below use [asciiLower] for [toLowerCase], which is what
    the engine computes on the ASCII strings they submit, and the
    identity for [encodeURIComponent], which it is on names in normal
    form. *)

(** The table after [alice] scored 10, [bob] 15 and [carol] 10. *)
Lemma three_players :
  leaderboard (run asciiLower id
    [PostScore (Str (lit " Alice ")) (Finite 10) t1;
     PostScore (Str bob) (Finite 15.7) t2;
     PostScore (Str carol) (Finite 10) t3] (initial))
  = [Row alice 10 t1; Row bob 15 t2; Row carol 10 t3].
Proof. vm_compute. reflexivity. Qed.

(** C1 (as stated) fails: [alice] holds 10 since [t1]; a submission of
    5 at [t2] for [alice] changes the entry: its updated_at is now [t2]. *)
Lemma resubmit_lower_refreshes_updated_at :
  let tbl := [Row alice 10 t1] in
  let tbl' := snd (postScore asciiLower (Str alice) (Finite 5) t2 tbl) in
  selectByUsername alice tbl = Some (Row alice 10 t1)
  /\ (Qfloor 5 <= 10)%Z
  /\ selectByUsername alice tbl' = Some (Row alice 10 t2)
  /\ selectByUsername alice tbl' <> selectByUsername alice tbl.
Proof. vm_compute. repeat split; try done. Qed.

Lemma resubmit_not_higher_witness :
  let tbl := [Row alice 10 t1; Row bob 15 t2] in
  let accepted := snd (postScore asciiLower (Str alice) (Finite 5) t3 tbl) in
  let refused := snd (postScore asciiLower (Str alice) (Finite (-1)) t3 tbl) in
  (selectByUsername (safeUsername asciiLower (Str alice)) tbl = Some (Row alice 10 t1)
   /\ (forall q, Finite 5 = Finite q -> (Qfloor q <= 10)%Z)
   /\ (forall q, Finite (-1) = Finite q -> (Qfloor q <= 10)%Z))
  /\ selectByUsername (safeUsername asciiLower (Str alice)) accepted
     = Some (Row alice 10 t3)
  /\ selectByUsername (safeUsername asciiLower (Str alice)) refused
     = Some (Row alice 10 t1)
  /\ forall v, v <> safeUsername asciiLower (Str alice) ->
       selectByUsername v accepted = selectByUsername v tbl.
Proof.
  intros tbl accepted refused.
  assert (forall q, Finite 5 = Finite q -> (Qfloor q <= 10)%Z) as H5
    by (by intros q [= <-]; vm_compute).
  assert (forall q, Finite (-1) = Finite q -> (Qfloor q <= 10)%Z) as Hm
    by (by intros q [= <-]; vm_compute).
  split; [by repeat split|].
  destruct (resubmit_not_higher asciiLower (Str alice) (Finite 5) t3 tbl
              (Row alice 10 t1) eq_refl H5) as [Hacc Hothers].
  destruct (resubmit_not_higher asciiLower (Str alice) (Finite (-1)) t3 tbl
              (Row alice 10 t1) eq_refl Hm) as [Href _].
  split; [exact Hacc|]. split; [exact Href|exact Hothers].
Defined.

Lemma best_never_decreases_witness :
  postScore asciiLower (Str alice) (Finite 5) t2 [Row alice 10 t1]
    = (Ok200 (ScoreBody alice 10), [Row alice 10 t2])
  /\ exists e',
       selectByUsername (safeUsername asciiLower (Str alice)) [Row alice 10 t2] = Some e'
       /\ best e' = 10%Z
       /\ (10 <= best e')%Z.
Proof.
  split; [reflexivity|].
  apply (best_never_decreases asciiLower (Str alice) (Finite 5) t2
           [Row alice 10 t1] (ScoreBody alice 10) [Row alice 10 t2]).
  reflexivity.
Defined.

(** C7: a submission without a username and with the score 5 is not
    rejected; it is answered 200 and stored under [player], so the
    claimed equivalence fails there. *)
Lemma missing_username_is_accepted :
  cleanUsername asciiLower Undefined = []
  /\ postScore asciiLower Undefined (Finite 5) t1 []
     = (Ok200 (ScoreBody (lit "player") 5), [Row (lit "player") 5 t1])
  /\ ~ (status (fst (postScore asciiLower Undefined (Finite 5) t1 [])) = 400%Z
        /\ snd (postScore asciiLower Undefined (Finite 5) t1 []) = []
        <-> cleanUsername asciiLower Undefined = []
            \/ isFinite (Finite 5) = false \/ isNegative (Finite 5) = true).
Proof.
  split; [reflexivity|]. split; [reflexivity|].
  intros [_ H]. destruct H as [H _]; [by left|]. vm_compute in H. done.
Qed.

(** C8: a text file sent as avatar is answered 200 and is on disk under
    the name of a PNG, although the filter of the earlier upload route
    refuses its type. *)
Lemma text_plain_avatar_is_stored :
  let f := Upload (lit "text/plain") [104; 105]%N in
  let form := AvatarForm (Str alice) (Str alice) (Some f) in
  Legacy.fileFilter f = inr "Only PNG, JPG, or WEBP images are allowed."%string
  /\ fst (postUploadAvatar asciiLower id form ∅) = Ok200 (lit "/avatars/alice.png")
  /\ snd (postUploadAvatar asciiLower id form ∅) !! lit "alice.png" = Some [104; 105]%N.
Proof. vm_compute. repeat split. Qed.

Lemma rank_of_unknown_user_witness :
  selectByUsername (safeUsername asciiLower (Str (lit "dave")))
    [Row alice 10 t1; Row bob 15 t2] = None
  /\ getRank asciiLower (Str (lit "dave")) [Row alice 10 t1; Row bob 15 t2]
     = Ok200 (RankBody (lit "dave") None 2 None).
Proof.
  split; [reflexivity|].
  apply (rank_of_unknown_user asciiLower (Str (lit "dave"))
           [Row alice 10 t1; Row bob 15 t2]).
  reflexivity.
Defined.

Lemma earlier_update_ranks_better_witness :
  let tbl := [Row alice 10 t1; Row bob 15 t2; Row carol 10 t3] in
  (selectByUsername (safeUsername asciiLower (Str alice)) tbl = Some (Row alice 10 t1)
   /\ selectByUsername (safeUsername asciiLower (Str carol)) tbl = Some (Row carol 10 t3)
   /\ String.ltb t1 t3 = true)
  /\ exists b1 b2 n1 n2,
       getRank asciiLower (Str alice) tbl = Ok200 b1 /\ rb_rank b1 = Some n1
       /\ getRank asciiLower (Str carol) tbl = Ok200 b2 /\ rb_rank b2 = Some n2
       /\ n1 < n2.
Proof.
  split; [by repeat split|].
  apply (earlier_update_ranks_better asciiLower (Str alice) (Str carol)
           [Row alice 10 t1; Row bob 15 t2; Row carol 10 t3]
           (Row alice 10 t1) (Row carol 10 t3)); reflexivity.
Defined.

Lemma rank_bounds_and_top_witness :
  let tbl := [Row alice 10 t1; Row bob 15 t2; Row carol 10 t3] in
  (selectByUsername (safeUsername asciiLower (Str bob)) tbl = Some (Row bob 15 t2)
   /\ forall r, r ∈ tbl -> r <> Row bob 15 t2 -> (best r < 15)%Z)
  /\ exists n,
       getRank asciiLower (Str bob) tbl
       = Ok200 (RankBody (safeUsername asciiLower (Str bob)) (Some n) 3 (Some 15%Z))
       /\ 1 <= n <= 3 /\ n = 1.
Proof.
  intros tbl.
  assert (forall r, r ∈ tbl -> r <> Row bob 15 t2 -> (best r < 15)%Z) as Htop.
  { intros r Hr Hne. unfold tbl in Hr.
    repeat (apply elem_of_cons in Hr as [->|Hr]); try done.
    by apply elem_of_nil in Hr. }
  split; [by split|].
  destruct (rank_bounds_and_top asciiLower (Str bob) tbl (Row bob 15 t2) eq_refl)
    as (n & Hrank & Hbounds & Hone).
  exists n. split; [exact Hrank|]. split; [exact Hbounds|exact (Hone Htop)].
Defined.

Lemma listing_agrees_with_rank_witness :
  let s := run asciiLower id
    [PostScore (Str (lit " Alice ")) (Finite 10) t1;
     PostScore (Str bob) (Finite 15.7) t2;
     PostScore (Str carol) (Finite 10) t3] initial in
  let rows := [Row bob 15 t2; Row alice 10 t1; Row carol 10 t3] in
  ((forall u, nameString u -> asciiLower u = u)
   /\ reachable asciiLower id s
   /\ NoDup (sortKey <$> leaderboard s)
   /\ getLeaderboard NaN (leaderboard s) = Ok200 rows)
  /\ getRank asciiLower (Str alice) (leaderboard s)
     = Ok200 (RankBody alice (Some 2) 3 (Some 10%Z))
  /\ rows ≡ₚ leaderboard s.
Proof.
  intros s rows.
  assert (reachable asciiLower id s) as Hreach by (by eexists).
  assert (NoDup (sortKey <$> leaderboard s)) as Hkeys.
  { refine (bool_decide_unpack _ _). by vm_compute. }
  assert (getLeaderboard NaN (leaderboard s) = Ok200 rows) as Hrows by reflexivity.
  split; [by repeat split; try apply NameFacts.asciiLower_name|].
  destruct (listing_agrees_with_rank asciiLower id NameFacts.asciiLower_name
              s NaN rows Hreach Hkeys Hrows) as [Hrank Hall].
  split.
  - exact (Hrank 1 (Row alice 10 t1) eq_refl).
  - apply Hall. vm_compute. lia.
Defined.

Lemma safeUsername_normal_form_witness :
  let input := Str (lit "  Flappy  BIRD #1 ") in
  let s := run asciiLower id
    [PostScore input (Finite 3) t1;
     PostUploadAvatar (AvatarForm input input (Some (Upload (lit "image/png") [137; 80]%N)))]
    initial in
  ((forall u, nameString u -> asciiLower u = u) /\ reachable asciiLower id s)
  /\ safeUsername asciiLower input = lit "flappy-bird-1"
  /\ normalized (safeUsername asciiLower input)
  /\ safeUsername asciiLower (Str (safeUsername asciiLower input))
     = safeUsername asciiLower input
  /\ (forall r, r ∈ leaderboard s -> safeUsername asciiLower (Str (username r)) = username r)
  /\ (forall name, is_Some (avatars s !! name) ->
        exists u, name = avatarFilename u /\ safeUsername asciiLower (Str u) = u).
Proof.
  intros input s.
  assert (reachable asciiLower id s) as Hreach by (by eexists).
  split; [split; [apply NameFacts.asciiLower_name|exact Hreach]|].
  split; [reflexivity|].
  destruct (safeUsername_normal_form asciiLower id NameFacts.asciiLower_name)
    as [Hfun Hstate].
  destruct (Hfun input) as (Hnorm & _ & Hidem).
  split; [exact Hnorm|]. split; [exact Hidem|].
  exact (Hstate s Hreach).
Defined.

(** * Further properties *)

(** ** Submissions and the table *)

Section SubmissionFacts.

Variable toLowerCase : jsstring -> jsstring.
Variable encodeURIComponent : jsstring -> jsstring.

Lemma floor_nonneg q : ~ (q < 0)%Q -> (0 <= Qfloor q)%Z.
Proof.
  intros Hq. apply Qnot_lt_le in Hq.
  exact (Qfloor_resp_le 0 q Hq).
Qed.

(** X1: in every reachable state the table has one row per username,
    and each row is the one its own username selects. *)
Theorem one_row_per_username s :
  reachable toLowerCase encodeURIComponent s ->
  NoDup (username <$> leaderboard s)
  /\ forall e, e ∈ leaderboard s ->
       selectByUsername (username e) (leaderboard s) = Some e.
Proof.
  intros Hs. apply reachable_ok in Hs as [[Hnd _] _].
  split; [done|]. intros e He. by apply select_elem.
Qed.

Lemma select_after_other uf x now tbl v :
  v <> safeUsername toLowerCase uf ->
  selectByUsername v (snd (postScore toLowerCase uf x now tbl))
  = selectByUsername v tbl.
Proof.
  intros Hv.
  destruct (postScore_cases toLowerCase uf x now tbl) as [[msg ->]|(q & -> & Hq)];
    [done|].
  rewrite (postScore_accepted toLowerCase uf q now tbl Hq). simpl.
  destruct (selectByUsername (safeUsername toLowerCase uf) tbl).
  - by apply select_update_other.
  - rewrite select_insert. rewrite bool_decide_eq_false_2 by done.
    by destruct (selectByUsername v tbl).
Qed.

(** X2: a submission, accepted or not, leaves the entry of every other
    username as it was. *)
Theorem submission_leaves_others uf x now tbl v :
  v <> safeUsername toLowerCase uf ->
  selectByUsername v (snd (postScore toLowerCase uf x now tbl))
  = selectByUsername v tbl.
Proof. apply select_after_other. Qed.

(** X3: the first accepted submission of a username appends the row
    (username, floor(score), now) and answers with that best. *)
Theorem first_submission_creates_entry uf q now tbl :
  selectByUsername (safeUsername toLowerCase uf) tbl = None ->
  ~ (q < 0)%Q ->
  postScore toLowerCase uf (Finite q) now tbl
  = (Ok200 (ScoreBody (safeUsername toLowerCase uf) (Qfloor q)),
     tbl ++ [Row (safeUsername toLowerCase uf) (Qfloor q) now]).
Proof.
  intros Hnone Hq. rewrite (postScore_accepted toLowerCase uf q now tbl Hq).
  simpl. rewrite Hnone. simpl. unfold insertRow.
  pose proof (floor_nonneg q Hq). by rewrite Z.max_r.
Qed.

(** X4: the number of rows grows by one when an accepted submission
    names a username without an entry, and stays the same otherwise. *)
Theorem row_count_after_submission uf x now tbl :
  length (snd (postScore toLowerCase uf x now tbl))
  = if isFinite x && negb (isNegative x)
       && bool_decide (selectByUsername (safeUsername toLowerCase uf) tbl = None)
    then S (length tbl) else length tbl.
Proof.
  destruct (postScore_cases toLowerCase uf x now tbl) as [[msg H]|(q & -> & Hq)].
  - rewrite H. simpl.
    destruct x as [| | |q]; simpl; try done.
    destruct (Qlt_le_dec q 0) as [?|Hge] eqn:Hd; [done|].
    exfalso. unfold postScore in H.
    destruct (safeUsername toLowerCase uf) eqn:E;
      [by apply safeUsername_not_nil in E|].
    rewrite Hd in H. done.
  - rewrite (postScore_accepted toLowerCase uf q now tbl Hq). simpl.
    destruct (Qlt_le_dec q 0) as [?|_]; [done|]. simpl.
    destruct (selectByUsername (safeUsername toLowerCase uf) tbl); simpl.
    + unfold updateRow. by rewrite length_map.
    + unfold insertRow. rewrite length_app. simpl. lia.
Qed.

(** X20: the status of a score submission. It is 500 exactly when
    reading or converting the username or the score throws; it is 400
    exactly when both can be read and the score is not finite or is
    negative, whatever the username is; in every other case it is 200.
    Only a submission answered 200 changes the table. *)
Theorem score_route_status uf sx now tbl :
  let r := postScoreRoute toLowerCase uf sx now tbl in
  (status (fst r) = 500%Z <-> uf = Thrown \/ sx = Thrown)
  /\ (status (fst r) = 400%Z
      <-> exists u x, uf = Got u /\ sx = Got x
                      /\ (isFinite x = false \/ isNegative x = true))
  /\ (status (fst r) = 200%Z \/ status (fst r) = 400%Z \/ status (fst r) = 500%Z)
  /\ (status (fst r) <> 200%Z -> snd r = tbl).
Proof.
  destruct uf as [u|]; [destruct sx as [x|]|]; cbn [postScoreRoute].
  - destruct (rejected_iff_bad_score toLowerCase u x now tbl) as (Hiff & Hsame & H200).
    destruct (decide (status (fst (postScore toLowerCase u x now tbl)) = 400%Z))
      as [E|E].
    + split; [|split; [|split]].
      * rewrite E. split; [done|]. by intros [|].
      * split; [|done]. intros _. exists u, x. split; [done|]. split; [done|].
        by apply Hiff.
      * by right; left.
      * intros _. by apply Hsame.
    + pose proof (H200 E) as E2. split; [|split; [|split]].
      * rewrite E2. split; [done|]. by intros [|].
      * split; [done|]. intros (u' & x' & [= <-] & [= <-] & Hbad).
        by apply Hiff in Hbad.
      * by left.
      * done.
  - cbn [fst snd status]. split; [|split; [|split]].
    + split; [|done]. intros _. by right.
    + split; [done|]. by intros (u' & x' & _ & ? & _).
    + by right; right.
    + done.
  - cbn [fst snd status]. split; [|split; [|split]].
    + split; [|done]. intros _. by left.
    + split; [done|]. by intros (u' & x' & ? & _).
    + by right; right.
    + done.
Qed.

(** *** The table as a function of the run *)

(** The table after a submission, by the accepted submission it is. *)
Lemma postScore_by_accepted uf x now tbl :
  snd (postScore toLowerCase uf x now tbl)
  = match accepted toLowerCase (PostScore uf x now) with
    | None => tbl
    | Some (u, b, t) =>
        match selectByUsername u tbl with
        | Some e => updateRow (Z.max (best e) b) t u tbl
        | None => insertRow u (Z.max 0 b) t tbl
        end
    end.
Proof.
  destruct (postScore_cases toLowerCase uf x now tbl) as [[msg H]|(q & -> & Hq)].
  - rewrite H. simpl. destruct x as [| | |q]; try done.
    destruct (Qlt_le_dec q 0) as [?|Hge] eqn:Hd; [done|].
    exfalso. unfold postScore in H.
    destruct (safeUsername toLowerCase uf) eqn:E;
      [by apply safeUsername_not_nil in E|].
    rewrite Hd in H. done.
  - rewrite (postScore_accepted toLowerCase uf q now tbl Hq). simpl.
    destruct (Qlt_le_dec q 0) as [?|_]; [done|].
    by destruct (selectByUsername (safeUsername toLowerCase uf) tbl).
Qed.

Lemma run_snoc rs r s :
  run toLowerCase encodeURIComponent (rs ++ [r]) s
  = handle toLowerCase encodeURIComponent (run toLowerCase encodeURIComponent rs s) r.
Proof. unfold run. by rewrite fold_left_app. Qed.

(** Requests other than submissions leave the table alone. *)
Lemma handle_leaderboard s r :
  leaderboard (handle toLowerCase encodeURIComponent s r)
  = match accepted toLowerCase r with
    | None => leaderboard s
    | Some (u, b, t) =>
        match selectByUsername u (leaderboard s) with
        | Some e => updateRow (Z.max (best e) b) t u (leaderboard s)
        | None => insertRow u (Z.max 0 b) t (leaderboard s)
        end
    end.
Proof.
  destruct r as [uf x now| | | |]; try done.
  simpl handle. simpl leaderboard. apply postScore_by_accepted.
Qed.

Lemma select_after_run rs : forall u,
  selectByUsername u (leaderboard (run toLowerCase encodeURIComponent rs initial))
  = match last (acceptedFor toLowerCase u rs) with
    | None => None
    | Some (_, t) =>
        Some (Row u (fold_left Z.max (fst <$> acceptedFor toLowerCase u rs) 0%Z) t)
    end.
Proof.
  induction rs as [|r rs IH] using rev_ind; intros u; [done|].
  rewrite run_snoc, handle_leaderboard.
  unfold acceptedFor. rewrite omap_app. simpl.
  fold (acceptedFor toLowerCase u rs).
  set (tbl := leaderboard (run toLowerCase encodeURIComponent rs initial)) in *.
  destruct (accepted toLowerCase r) as [[[v b] t]|]; simpl.
  - case_bool_decide as Hv; simpl.
    + subst v. rewrite last_snoc, fmap_app, fold_left_app. simpl.
      specialize (IH u).
      destruct (selectByUsername u tbl) as [e|] eqn:He.
      * rewrite select_update_same, He. simpl.
        destruct (last (acceptedFor toLowerCase u rs)) as [[b0 t0]|]; [|done].
        by injection IH as ->.
      * rewrite select_insert, He. rewrite bool_decide_eq_true_2 by done.
        destruct (last (acceptedFor toLowerCase u rs)) as [[b0 t0]|] eqn:Hl; [done|].
        apply last_None in Hl. by rewrite Hl.
    + rewrite app_nil_r, <- IH.
      destruct (selectByUsername v tbl).
      * by apply select_update_other.
      * rewrite select_insert. rewrite bool_decide_eq_false_2 by done.
        by destruct (selectByUsername u tbl).
  - by rewrite app_nil_r.
Qed.

(** X5: after any run from the empty state, a username has an entry
    exactly when the run holds an accepted submission for it; the
    entry's best is the greatest floored score of these submissions and
    its updated_at is the time of the last of them. *)
Theorem entry_is_max_and_last rs u :
  selectByUsername u (leaderboard (run toLowerCase encodeURIComponent rs initial))
  = match last (acceptedFor toLowerCase u rs) with
    | None => None
    | Some (_, t) =>
        Some (Row u (fold_left Z.max (fst <$> acceptedFor toLowerCase u rs) 0%Z) t)
    end.
Proof. apply select_after_run. Qed.

Lemma select_is_Some u tbl :
  is_Some (selectByUsername u tbl) <-> u ∈ username <$> tbl.
Proof.
  split.
  - intros [e He]. apply select_Some in He as [He <-].
    by apply list_elem_of_fmap_2.
  - intros Hu. destruct (selectByUsername u tbl) as [e|] eqn:He; [by eexists|].
    apply list_elem_of_fmap in Hu as (r & -> & Hr).
    by destruct (select_None _ _ He r Hr).
Qed.

Lemma acceptedFor_nil u rs :
  acceptedFor toLowerCase u rs = [] <-> u ∉ acceptedNames toLowerCase rs.
Proof.
  unfold acceptedFor, acceptedNames.
  induction rs as [|r rs IH]; simpl; [by split; [intros _; apply not_elem_of_nil|]|].
  destruct (accepted toLowerCase r) as [[[v b] t]|]; simpl; [|done].
  rewrite not_elem_of_cons. case_bool_decide as Hv; simpl.
  - split; [done|]. intros [? _]. congruence.
  - rewrite IH. split; [by split|tauto].
Qed.

(** X6: the number of rows after a run from the empty state is the
    number of distinct usernames with an accepted submission in it. *)
Theorem total_counts_distinct_keys rs :
  length (leaderboard (run toLowerCase encodeURIComponent rs initial))
  = length (remove_dups (acceptedNames toLowerCase rs)).
Proof.
  set (tbl := leaderboard (run toLowerCase encodeURIComponent rs initial)).
  rewrite <- (length_fmap username tbl).
  apply Permutation_length, NoDup_Permutation.
  - apply (reachable_ok toLowerCase encodeURIComponent). by exists rs.
  - apply NoDup_remove_dups.
  - intros u. rewrite elem_of_remove_dups, <- select_is_Some.
    unfold tbl. rewrite select_after_run.
    destruct (decide (u ∈ acceptedNames toLowerCase rs)) as [Hin|Hout].
    + split; [done|]. intros _.
      destruct (last (acceptedFor toLowerCase u rs)) as [[b t]|] eqn:Hl; [by eexists|].
      apply last_None, acceptedFor_nil in Hl. done.
    + apply acceptedFor_nil in Hout as Hnil. rewrite Hnil. simpl.
      split; [by intros [? ?]|done].
Qed.

End SubmissionFacts.

(** ** Ranks and the listing *)

Section RankFacts.

Variable toLowerCase : jsstring -> jsstring.
Variable encodeURIComponent : jsstring -> jsstring.
Hypothesis toLowerCase_name : forall s, nameString s -> toLowerCase s = s.

(** Being ahead is transitive. *)
Lemma ranksAhead_trans e2 e1 r :
  ranksAhead e2 e1 -> ranksAhead e1 r -> ranksAhead e2 r.
Proof.
  unfold ranksAhead. intros [H1|[H1 L1]] [H2|[H2 L2]].
  - left. lia.
  - left. lia.
  - left. lia.
  - right. split; [congruence|]. eauto using TextOrder.compare_lt_trans.
Qed.

(** Two rows have the same key, or one of them is ahead of the other. *)
Lemma ranksAhead_trichotomy e1 e2 :
  ranksAhead e2 e1 \/ sortKey e1 = sortKey e2 \/ ranksAhead e1 e2.
Proof.
  unfold ranksAhead, sortKey.
  destruct (Z.lt_trichotomy (best e1) (best e2)) as [?|[Hb|?]]; [by right; right; left| |by left; left].
  destruct (String.compare (updated_at e1) (updated_at e2)) eqn:Hc.
  - apply String.compare_eq_iff in Hc. right; left. congruence.
  - left; right. done.
  - right; right; right. split; [done|].
    rewrite String.compare_antisym, Hc. done.
Qed.

Lemma same_key_not_ahead e1 e2 : sortKey e1 = sortKey e2 -> ~ ranksAhead e2 e1.
Proof.
  unfold ranksAhead, sortKey. intros [= Hb Hu] [H|[_ H]]; [lia|].
  rewrite Hu, TextOrder.compare_refl in H. done.
Qed.

Lemma same_key_same_count e1 e2 tbl :
  sortKey e1 = sortKey e2 ->
  length (filter (ranksAhead e1) tbl) = length (filter (ranksAhead e2) tbl).
Proof.
  unfold sortKey. intros [= Hb Hu].
  apply Nat.le_antisymm; apply CountFacts.count_mono; intros r;
    unfold ranksAhead; rewrite Hb, Hu; done.
Qed.

Lemma ahead_smaller_count e1 e2 tbl :
  e1 ∈ tbl -> ranksAhead e2 e1 ->
  length (filter (ranksAhead e1) tbl) < length (filter (ranksAhead e2) tbl).
Proof.
  intros He Hah. apply (CountFacts.count_lt _ _ tbl e1).
  - intros r. by apply ranksAhead_trans.
  - done.
  - done.
  - apply RankRule.ranksAhead_irrefl.
Qed.

(** X7: the ranks of two entries compare as the entries do under the
    ordering rule: the first has the smaller rank exactly when it has
    the greater best, or the same best and the earlier updated_at; the
    ranks are equal exactly when best and updated_at both agree. *)
Theorem rank_follows_order uq1 uq2 tbl e1 e2 :
  selectByUsername (safeUsername toLowerCase uq1) tbl = Some e1 ->
  selectByUsername (safeUsername toLowerCase uq2) tbl = Some e2 ->
  exists n1 n2,
    getRank toLowerCase uq1 tbl
    = Ok200 (RankBody (safeUsername toLowerCase uq1) (Some n1) (length tbl)
               (Some (best e1)))
    /\ getRank toLowerCase uq2 tbl
       = Ok200 (RankBody (safeUsername toLowerCase uq2) (Some n2) (length tbl)
                  (Some (best e2)))
    /\ (n1 < n2 <-> ranksAhead e2 e1)
    /\ (n1 = n2 <-> sortKey e1 = sortKey e2).
Proof.
  intros H1 H2. do 2 eexists.
  rewrite (getRank_rank toLowerCase uq1 tbl e1 H1).
  rewrite (getRank_rank toLowerCase uq2 tbl e2 H2).
  split; [reflexivity|]. split; [reflexivity|].
  apply select_Some in H1 as [Hin1 _]. apply select_Some in H2 as [Hin2 _].
  destruct (ranksAhead_trichotomy e1 e2) as [Hah|[Hk|Hah]].
  - pose proof (ahead_smaller_count e1 e2 tbl Hin1 Hah).
    split; [split; [done|lia]|]. split; [lia|].
    intros Hk. by destruct (same_key_not_ahead e1 e2 Hk).
  - pose proof (same_key_same_count e1 e2 tbl Hk).
    split; [|split; [done|lia]]. split; [lia|].
    intros Hah. by destruct (same_key_not_ahead e1 e2 Hk).
  - pose proof (ahead_smaller_count e2 e1 tbl Hin2 Hah).
    split; (split; [lia|]).
    + intros Hah'. exfalso. apply (RankRule.ranksAhead_irrefl e1).
      by apply (ranksAhead_trans e1 e2 e1).
    + intros Hk. symmetry in Hk. by destruct (same_key_not_ahead e2 e1 Hk).
Qed.

(** X8: after an accepted submission the rank query for the same
    username field finds the entry: it answers the best of the
    submission's reply and a rank between 1 and the total. *)
Theorem rank_after_submission uf x now tbl body tbl' :
  postScore toLowerCase uf x now tbl = (Ok200 body, tbl') ->
  exists n,
    getRank toLowerCase uf tbl'
    = Ok200 (RankBody (sb_username body) (Some n) (length tbl') (Some (sb_best body)))
    /\ 1 <= n <= length tbl'.
Proof.
  intros H.
  destruct (postScore_cases toLowerCase uf x now tbl) as [[msg H']|(q & -> & Hq)];
    [congruence|].
  rewrite (postScore_accepted toLowerCase uf q now tbl Hq) in H. simpl in H.
  injection H as <- <-. simpl.
  set (u := safeUsername toLowerCase uf).
  set (b := Z.max _ _).
  assert (exists e, selectByUsername u
            match selectByUsername u tbl with
            | Some _ => updateRow b now u tbl
            | None => insertRow u b now tbl
            end = Some e /\ best e = b) as (e & He & Hb).
  { destruct (selectByUsername u tbl) as [e0|] eqn:He0.
    - eexists. rewrite select_update_same, He0. done.
    - eexists. rewrite select_insert, He0.
      rewrite bool_decide_eq_true_2 by done. done. }
  eexists. rewrite (getRank_rank toLowerCase uf _ e He), Hb.
  split; [reflexivity|]. split; [lia|].
  apply (CountFacts.count_lt_length (ranksAhead e) _ e).
  - by apply select_Some in He as [? _].
  - apply RankRule.ranksAhead_irrefl.
Qed.

End RankFacts.

(** ** The listing *)

Section ListingFacts.

Variable toLowerCase : jsstring -> jsstring.
Variable encodeURIComponent : jsstring -> jsstring.
Hypothesis toLowerCase_name : forall s, nameString s -> toLowerCase s = s.

Lemma clampLimit_bounds limitRaw : (1 <= clampLimit limitRaw <= 50)%Q.
Proof.
  destruct limitRaw as [| | |q]; simpl; try (split; discriminate).
  split; [apply Q.le_max_l|].
  apply Q.max_lub; [discriminate|apply Q.le_min_l].
Qed.

Lemma clampLimit_floor limitRaw :
  (1 <= Qfloor (clampLimit limitRaw) <= 50)%Z.
Proof.
  destruct (clampLimit_bounds limitRaw) as [H1 H50]. split.
  - exact (Qfloor_resp_le 1 _ H1).
  - exact (Qfloor_resp_le _ 50 H50).
Qed.

(** X9: a listing is ordered by best descending, then updated_at
    ascending; its rows are rows of the table; it holds as many rows as
    the clamped limit allows, between 1 and 50, or all rows when there
    are fewer. *)
Theorem listing_shape limitRaw tbl rows :
  getLeaderboard limitRaw tbl = Ok200 rows ->
  StronglySorted orderBy rows
  /\ rows ⊆+ tbl
  /\ length rows = Nat.min (Z.to_nat (Qfloor (clampLimit limitRaw))) (length tbl)
  /\ length rows <= 50.
Proof.
  intros H. apply getLeaderboard_rows in H. subst rows.
  set (k := Z.to_nat (Qfloor (clampLimit limitRaw))).
  assert (k <= 50) as Hk by (pose proof (clampLimit_floor limitRaw); lia).
  split; [|split; [|split]].
  - pose proof (Listing.selectOrdered_sorted tbl) as Hs.
    rewrite <- (take_drop k (selectOrdered tbl)) in Hs.
    by apply StronglySorted_app_1_l in Hs.
  - rewrite <- (Listing.selectOrdered_perm tbl) at 2.
    apply sublist_submseteq, sublist_take.
  - rewrite length_take.
    by rewrite (Permutation_length (Listing.selectOrdered_perm tbl)).
  - rewrite length_take. lia.
Qed.

Lemma integer_passes q z tbl :
  (q == inject_Z z)%Q ->
  (if Qeq_bool (inject_Z (Qfloor q)) q
   then Ok200 (take (Z.to_nat (Qfloor q)) (selectOrdered tbl))
   else Err500 "Failed to load leaderboard")
  = Ok200 (take (Z.to_nat z) (selectOrdered tbl)).
Proof.
  intros Hq. assert (Qfloor q = z) as Hz by (by rewrite Hq, Qfloor_Z).
  rewrite Hz. destruct (Qeq_bool (inject_Z z) q) eqn:E; [done|].
  apply Qeq_bool_neq in E. by destruct E.
Qed.

(** X10: the listing fails, with status 500, exactly for a limit
    strictly between 1 and 50 that is not an integer; without a finite
    limit it lists 20 rows at most. *)
Theorem listing_fails_iff limitRaw tbl :
  (status (getLeaderboard limitRaw tbl) = 500%Z
   <-> exists q, limitRaw = Finite q /\ (1 < q)%Q /\ (q < 50)%Q
                 /\ ~ (inject_Z (Qfloor q) == q)%Q)
  /\ (status (getLeaderboard limitRaw tbl) <> 500%Z ->
      status (getLeaderboard limitRaw tbl) = 200%Z)
  /\ (isFinite limitRaw = false ->
      getLeaderboard limitRaw tbl = Ok200 (take 20 (selectOrdered tbl))).
Proof.
  split; [|split].
  - destruct limitRaw as [| | |q]; try (split; [done|by intros (? & ? & _)]).
    unfold getLeaderboard. simpl clampLimit.
    destruct (Q.min_spec 50 q) as [[Hlt Hmin]|[Hle Hmin]];
      destruct (Q.max_spec 1 (Qmin 50 q)) as [[Hlt' Hmax]|[Hle' Hmax]];
      try rewrite Hmin in Hlt'; try rewrite Hmin in Hle'.
    + rewrite (integer_passes _ 50 tbl) by (by etransitivity).
      split; [done|]. intros (q' & [= <-] & _ & Hq & _).
      by destruct (Qlt_irrefl 50); eapply Qlt_trans.
    + rewrite (integer_passes _ 1 tbl) by done.
      split; [done|]. intros (q' & [= <-] & _ & Hq & _).
      by destruct (Qlt_irrefl 50); eapply Qlt_trans.
    + assert (Qmax 1 (Qmin 50 q) == q)%Q as Hc by (by etransitivity).
      pose proof (Qfloor_comp _ _ Hc) as Hf.
      destruct (Qeq_bool (inject_Z (Qfloor (Qmax 1 (Qmin 50 q)))) (Qmax 1 (Qmin 50 q)))
        eqn:E; simpl.
      * split; [done|]. intros (q' & [= <-] & _ & _ & Hn).
        apply Qeq_bool_iff in E. rewrite Hf in E.
        exfalso. apply Hn. by etransitivity.
      * split; [|done]. intros _. exists q. split; [done|].
        apply Qeq_bool_neq in E. rewrite Hf in E.
        assert (~ (inject_Z (Qfloor q) == q)%Q) as Hn.
        { intros Hi. apply E. etransitivity; [exact Hi|by symmetry]. }
        split; [done|]. split; [|done].
        apply Qle_lteq in Hle as [?|Hq]; [done|].
        destruct Hn. rewrite (Qfloor_comp _ _ Hq). by symmetry.
    + rewrite (integer_passes _ 1 tbl) by done.
      split; [done|]. intros (q' & [= <-] & Hq & _).
      by destruct (Qlt_irrefl q); eapply Qle_lt_trans.
  - unfold getLeaderboard. by case_match.
  - by destruct limitRaw.
Qed.

(** In the ordered table only rows before a row can be ahead of it. *)
Lemma position_bounds_ahead tbl i e :
  selectOrdered tbl !! i = Some e ->
  length (filter (ranksAhead e) tbl) <= i.
Proof.
  intros Hi.
  rewrite <- (Listing.selectOrdered_perm tbl).
  pose proof (Listing.selectOrdered_sorted tbl) as Hs.
  pose proof (lookup_lt_Some _ _ _ Hi) as Hlen.
  rewrite <- (take_drop_middle _ _ _ Hi) in Hs |- *.
  set (l1 := take i (selectOrdered tbl)) in *.
  set (l2 := drop (S i) (selectOrdered tbl)) in *.
  assert (length l1 = i) as Hl1 by (unfold l1; rewrite length_take; lia).
  rewrite filter_app, filter_cons, length_app.
  rewrite decide_False by apply RankRule.ranksAhead_irrefl.
  rewrite (CountFacts.count_none (ranksAhead e) l2).
  - pose proof (CountFacts.count_le (ranksAhead e) l1). lia.
  - intros y Hy. apply Listing.after_not_ahead.
    apply StronglySorted_app_1_r, StronglySorted_cons in Hs as [Hall _].
    by apply (proj1 (Forall_forall _ _) Hall).
Qed.

(** X11: in a reachable state, also with rows that agree on best and
    updated_at, the row at position [i] (from 0) of a listing has a
    rank between 1 and [i + 1]; the first row has rank 1. *)
Theorem listed_rank_bound s limitRaw rows i e :
  reachable toLowerCase encodeURIComponent s ->
  getLeaderboard limitRaw (leaderboard s) = Ok200 rows ->
  rows !! i = Some e ->
  exists n,
    getRank toLowerCase (Str (username e)) (leaderboard s)
    = Ok200 (RankBody (username e) (Some n) (length (leaderboard s)) (Some (best e)))
    /\ 1 <= n <= S i.
Proof.
  intros Hreach Hrows Hi.
  apply (reachable_ok toLowerCase encodeURIComponent) in Hreach as [[Hnd Hall] _].
  apply getLeaderboard_rows in Hrows. subst rows.
  apply lookup_take_Some in Hi as [Hi _].
  assert (e ∈ leaderboard s) as He.
  { rewrite <- (Listing.selectOrdered_perm (leaderboard s)).
    by apply list_elem_of_lookup_2 in Hi. }
  pose proof (proj1 (Forall_forall _ _) Hall e He) as Hnorm.
  pose proof (safeUsername_fixed toLowerCase toLowerCase_name _ Hnorm) as Hfix.
  eexists. rewrite (getRank_rank toLowerCase (Str (username e)) (leaderboard s) e).
  - rewrite Hfix. split; [reflexivity|].
    pose proof (position_bounds_ahead _ i e Hi). lia.
  - rewrite Hfix. by apply select_elem.
Qed.

End ListingFacts.

(** ** Avatars *)

Section AvatarFacts.

Variable toLowerCase : jsstring -> jsstring.
Variable encodeURIComponent : jsstring -> jsstring.


(** X12: an upload with a file within the size limit is answered 200;
    afterwards the file stored for the name is the uploaded one,
    whatever was there before, and the avatar lookup for that name
    answers its URL, which is the URL of the reply when the username
    field was complete when the file part arrived. *)
Theorem avatar_upload_then_lookup form dir f :
  avatarFile form = Some f ->
  (N.of_nat (length (content f)) <= fileSizeLimit)%N ->
  let r := postUploadAvatar toLowerCase encodeURIComponent form dir in
  let u := safeUsername toLowerCase (usernameAtFile form) in
  fst r = Ok200 (avatarUrl encodeURIComponent (safeUsername toLowerCase (usernameField form)))
  /\ snd r !! avatarFilename u = Some (content f)
  /\ getAvatar toLowerCase encodeURIComponent (usernameAtFile form) (snd r)
     = Ok200 (Some (avatarUrl encodeURIComponent u))
  /\ (safeUsername toLowerCase (usernameField form) = u ->
      getAvatar toLowerCase encodeURIComponent (usernameField form) (snd r)
      = Ok200 (Some (avatarUrl encodeURIComponent u))).
Proof.
  intros Hf Hsize. unfold postUploadAvatar. rewrite Hf.
  rewrite (proj2 (N.ltb_ge _ _) Hsize). simpl.
  split; [done|]. split; [apply lookup_insert_eq|].
  unfold getAvatar. split.
  - by rewrite lookup_insert_eq.
  - intros ->. by rewrite lookup_insert_eq.
Qed.



End AvatarFacts.

(** ** Character faces *)

Section FacesFacts.

Variable encodeURIComponent : jsstring -> jsstring.

Lemma faceFilename_inj c d : faceFilename c = faceFilename d -> c = d.
Proof. unfold faceFilename. apply app_inv_tail. Qed.

(** What an upload does to the directory. *)
Lemma postUploadFace_dir form dir :
  snd (postUploadFace encodeURIComponent form dir) = dir
  \/ exists f, faceFile form = Some f
       /\ characterOf (characterAtFile form) ∈ CHARACTERS
       /\ (snd (postUploadFace encodeURIComponent form dir)
             = <[faceFilename (characterOf (characterAtFile form)) := content f]> dir
           \/ snd (postUploadFace encodeURIComponent form dir)
             = delete (faceFilename (characterOf (characterAtFile form))) dir).
Proof.
  unfold postUploadFace, storeFace.
  destruct (faceFile form) as [f|]; simpl.
  - case_bool_decide as Hc; [|by left].
    right. exists f. split; [done|]. split; [done|].
    destruct (fileSizeLimit <? N.of_nat (length (content f)))%N; simpl; [by right|].
    left. by case_bool_decide.
  - left. by case_bool_decide.
Qed.

(** X15: an upload changes no file but the one named after the
    character read at the file part. *)
Theorem face_upload_touches_one_file form dir name :
  name <> faceFilename (characterOf (characterAtFile form)) ->
  snd (postUploadFace encodeURIComponent form dir) !! name = dir !! name.
Proof.
  intros Hname.
  destruct (postUploadFace_dir form dir) as [->|(f & _ & _ & [->| ->])]; [done| |].
  - by rewrite lookup_insert_ne.
  - by rewrite lookup_delete_ne.
Qed.

Lemma runFaces_names forms : forall dir,
  (forall name, is_Some (dir !! name) ->
     exists c, c ∈ CHARACTERS /\ name = faceFilename c) ->
  forall name, is_Some (runFaces encodeURIComponent forms dir !! name) ->
    exists c, c ∈ CHARACTERS /\ name = faceFilename c.
Proof.
  induction forms as [|form forms IH]; intros dir Hdir; [done|].
  simpl. apply IH. intros name Hname.
  destruct (postUploadFace_dir form dir) as [E|(f & _ & Hc & [E|E])];
    rewrite E in Hname.
  - by apply Hdir.
  - rewrite lookup_insert in Hname. case_decide as En; [|by apply Hdir].
    subst name. eauto.
  - rewrite lookup_delete in Hname. case_decide; [by destruct Hname|by apply Hdir].
Qed.

(** X16: starting from an empty directory, uploads only ever leave
    files named [<character>.png] for a character of [CHARACTERS]. *)
Theorem faces_only_for_characters forms name :
  is_Some (runFaces encodeURIComponent forms ∅ !! name) ->
  exists c, c ∈ CHARACTERS /\ name = faceFilename c.
Proof.
  apply runFaces_names. intros n [x Hx]. by rewrite lookup_empty in Hx.
Qed.

(** X17: after an upload with a file within the size limit for a
    character of [CHARACTERS], the character list shows that
    character with its face URL, and the face of every other name is
    as before. *)
Theorem face_upload_then_listed form dir f :
  faceFile form = Some f ->
  (N.of_nat (length (content f)) <= fileSizeLimit)%N ->
  characterOf (characterAtFile form) ∈ CHARACTERS ->
  let c := characterOf (characterAtFile form) in
  let dir' := snd (postUploadFace encodeURIComponent form dir) in
  dir' !! faceFilename c = Some (content f)
  /\ (exists l, getCharacters encodeURIComponent dir' = Ok200 l
        /\ CharacterEntry c (Some (faceUrl encodeURIComponent c)) ∈ l)
  /\ forall c', c' <> c ->
       findFaceForCharacter encodeURIComponent c' dir'
       = findFaceForCharacter encodeURIComponent c' dir.
Proof.
  intros Hf Hsize Hc c dir'.
  assert (dir' = <[faceFilename c := content f]> dir) as ->.
  { unfold dir', postUploadFace, storeFace. rewrite Hf.
    rewrite bool_decide_eq_true_2 by done.
    rewrite (proj2 (N.ltb_ge _ _) Hsize). by case_bool_decide. }
  split; [apply lookup_insert_eq|]. split.
  - eexists. split; [reflexivity|].
    apply list_elem_of_In, in_map_iff. exists c. split.
    + unfold findFaceForCharacter. by rewrite lookup_insert_eq.
    + by apply list_elem_of_In.
  - intros c' Hc'. unfold findFaceForCharacter.
    rewrite lookup_insert_ne; [done|].
    intros E. apply faceFilename_inj in E. congruence.
Qed.

(** X18: the reply to a face upload with at most one file part, sent
    under the field [face]. With a file whose character, read at the
    file part, is not one of [CHARACTERS], it is 500 and the directory
    is left as it was. With a file for such a character that is larger
    than the size limit, it is 500 and no face is stored under the
    name afterwards. Without a file, or with a file for such a
    character that is smaller than the size limit, it is 200 with the
    face URL when the character of the complete body is one of
    [CHARACTERS], and 400 when it is not; without a file the directory
    is left as it was, also when the reply is 200. *)
Theorem face_upload_status form dir :
  let r := postUploadFace encodeURIComponent form dir in
  let atFile := characterOf (characterAtFile form) in
  let atBody := characterOf (characterField form) in
  (forall f, faceFile form = Some f -> atFile ∉ CHARACTERS ->
     r = (Err500 "Invalid character", dir))
  /\ (forall f, faceFile form = Some f -> atFile ∈ CHARACTERS ->
        (fileSizeLimit < N.of_nat (length (content f)))%N ->
        status (fst r) = 500%Z /\ snd r !! faceFilename atFile = None)
  /\ (faceFile form = None
       \/ (exists f, faceFile form = Some f /\ atFile ∈ CHARACTERS
              /\ (N.of_nat (length (content f)) < fileSizeLimit)%N) ->
      if bool_decide (atBody ∈ CHARACTERS)
      then fst r = Ok200 (faceUrl encodeURIComponent atBody)
      else fst r = Err400 "Invalid character")
  /\ (faceFile form = None -> snd r = dir).
Proof.
  unfold postUploadFace, storeFace.
  destruct (faceFile form) as [f|]; cbn [fst snd status].
  - split; [|split; [|split; [|done]]].
    + intros f' _ Hc. rewrite (bool_decide_eq_false_2 _ Hc). reflexivity.
    + intros f' [= <-] Hc Hlt. rewrite (bool_decide_eq_true_2 _ Hc).
      rewrite (proj2 (N.ltb_lt _ _) Hlt). cbn [fst snd status].
      split; [done|]. apply lookup_delete_eq.
    + intros [?|(f' & [= <-] & Hc & Hlt)]; [done|].
      rewrite (bool_decide_eq_true_2 _ Hc).
      rewrite (proj2 (N.ltb_ge _ _)) by lia.
      by case_bool_decide.
  - split; [by intros f|]. split; [by intros f|]. split.
    + intros _. by case_bool_decide.
    + intros _. by case_bool_decide.
Qed.

End FacesFacts.

(** ** The file stem of the earlier upload route *)

Module LegacyFacts.

Local Open Scope N_scope.

Lemma isNameCharI_safe c :
  Legacy.isNameCharI (if Legacy.isNameCharI c then c else 0x5F) = true.
Proof. by destruct (Legacy.isNameCharI c) eqn:E. Qed.

Lemma safeChar_alphabet s :
  Forall (fun c => Legacy.isNameCharI c = true) (Legacy.safeChar s).
Proof.
  unfold Legacy.safeChar. induction s as [|c s IH]; simpl; constructor;
    [apply isNameCharI_safe|done].
Qed.

Lemma safeChar_fixed s :
  Forall (fun c => Legacy.isNameCharI c = true) s -> Legacy.safeChar s = s.
Proof.
  unfold Legacy.safeChar. induction 1 as [|c s Hc Hs IH]; simpl; [done|].
  by rewrite Hc, IH.
Qed.

(** X19: the file stem has the length of the trimmed character field
    and holds only letters, digits, [_] and [-], so neither a slash nor
    a dot; a string over that alphabet is its own [safeChar], and
    [safeChar] is idempotent. *)
Theorem fileStem_safe character s :
  length (Legacy.fileStem character) = length (trim (stringOrEmpty character))
  /\ Forall (fun c => Legacy.isNameCharI c = true) (Legacy.fileStem character)
  /\ (0x2F ∉ Legacy.fileStem character)
  /\ (0x2E ∉ Legacy.fileStem character)
  /\ (Forall (fun c => Legacy.isNameCharI c = true) s -> Legacy.safeChar s = s)
  /\ Legacy.safeChar (Legacy.safeChar s) = Legacy.safeChar s.
Proof.
  pose proof (safeChar_alphabet (trim (stringOrEmpty character))) as Hal.
  split; [apply length_map|]. split; [exact Hal|].
  split; [|split; [|split]].
  - intros Hin. by apply (proj1 (Forall_forall _ _) Hal) in Hin.
  - intros Hin. by apply (proj1 (Forall_forall _ _) Hal) in Hin.
  - apply safeChar_fixed.
  - apply safeChar_fixed, safeChar_alphabet.
Qed.

End LegacyFacts.

(** ** Further concrete runs *)

Ltac differs := let H := fresh in intros H; vm_compute in H; discriminate H.

Ltac member := refine (bool_decide_unpack _ _); vm_compute; exact I.

Lemma one_row_per_username_witness :
  let s := run asciiLower id threeSubmissions initial in
  reachable asciiLower id s
  /\ NoDup (username <$> leaderboard s)
  /\ forall e, e ∈ leaderboard s ->
       selectByUsername (username e) (leaderboard s) = Some e.
Proof.
  intros s. assert (reachable asciiLower id s) as Hs by (by eexists).
  split; [exact Hs|]. exact (one_row_per_username asciiLower id s Hs).
Defined.

Lemma submission_leaves_others_witness :
  bob <> safeUsername asciiLower (Str alice)
  /\ selectByUsername bob
       (snd (postScore asciiLower (Str alice) (Finite 12) t3
               [Row alice 10 t1; Row bob 15 t2]))
     = selectByUsername bob [Row alice 10 t1; Row bob 15 t2].
Proof.
  assert (bob <> safeUsername asciiLower (Str alice)) as Hne by differs.
  split; [exact Hne|].
  exact (submission_leaves_others asciiLower (Str alice) (Finite 12) t3
           [Row alice 10 t1; Row bob 15 t2] bob Hne).
Defined.

Lemma first_submission_creates_entry_witness :
  (selectByUsername (safeUsername asciiLower (Str carol)) [Row alice 10 t1] = None
   /\ ~ (7.9 < 0)%Q)
  /\ postScore asciiLower (Str carol) (Finite 7.9) t2 [Row alice 10 t1]
     = (Ok200 (ScoreBody (safeUsername asciiLower (Str carol)) (Qfloor 7.9)),
        [Row alice 10 t1] ++ [Row (safeUsername asciiLower (Str carol)) (Qfloor 7.9) t2]).
Proof.
  assert (~ (7.9 < 0)%Q) as Hq by (by vm_compute).
  split; [by split|].
  exact (first_submission_creates_entry asciiLower (Str carol) 7.9 t2
           [Row alice 10 t1] eq_refl Hq).
Defined.

Lemma score_route_status_witness :
  let tbl := [Row alice 10 t1] in
  ((Got (Str alice) = Thrown \/ @Thrown number = Thrown)
   /\ (exists u x, Got (Str alice) = Got u /\ Got NaN = Got x
                    /\ (isFinite x = false \/ isNegative x = true)))
  /\ status (fst (postScoreRoute asciiLower (Got (Str alice)) Thrown t2 tbl)) = 500%Z
  /\ snd (postScoreRoute asciiLower (Got (Str alice)) Thrown t2 tbl) = tbl
  /\ status (fst (postScoreRoute asciiLower (Got (Str alice)) (Got NaN) t2 tbl)) = 400%Z
  /\ snd (postScoreRoute asciiLower (Got (Str alice)) (Got NaN) t2 tbl) = tbl.
Proof.
  intros tbl.
  assert (Got (Str alice) = Thrown \/ @Thrown number = Thrown) as Hthrown by (by right).
  assert (exists u x, Got (Str alice) = Got u /\ Got NaN = Got x
                      /\ (isFinite x = false \/ isNegative x = true)) as Hbad.
  { exists (Str alice), NaN. split; [done|]. split; [done|]. by left. }
  split; [by split|].
  destruct (score_route_status asciiLower (Got (Str alice)) Thrown t2 tbl)
    as (H500 & _ & _ & Hsame).
  destruct (score_route_status asciiLower (Got (Str alice)) (Got NaN) t2 tbl)
    as (_ & H400 & _ & Hsame').
  pose proof (proj2 H500 Hthrown) as E500.
  pose proof (proj2 H400 Hbad) as E400.
  split; [exact E500|]. split.
  - apply Hsame. rewrite E500. discriminate.
  - split; [exact E400|]. apply Hsame'. rewrite E400. discriminate.
Defined.

Lemma rank_follows_order_witness :
  let tbl := [Row alice 10 t1; Row bob 15 t2; Row carol 10 t3] in
  (selectByUsername (safeUsername asciiLower (Str bob)) tbl = Some (Row bob 15 t2)
   /\ selectByUsername (safeUsername asciiLower (Str carol)) tbl = Some (Row carol 10 t3))
  /\ exists n1 n2,
       getRank asciiLower (Str bob) tbl
       = Ok200 (RankBody (safeUsername asciiLower (Str bob)) (Some n1) 3 (Some 15%Z))
       /\ getRank asciiLower (Str carol) tbl
          = Ok200 (RankBody (safeUsername asciiLower (Str carol)) (Some n2) 3 (Some 10%Z))
       /\ (n1 < n2 <-> ranksAhead (Row carol 10 t3) (Row bob 15 t2))
       /\ (n1 = n2 <-> sortKey (Row bob 15 t2) = sortKey (Row carol 10 t3)).
Proof.
  intros tbl. split; [by split|].
  exact (rank_follows_order asciiLower (Str bob) (Str carol) tbl
           (Row bob 15 t2) (Row carol 10 t3) eq_refl eq_refl).
Defined.

Lemma rank_after_submission_witness :
  postScore asciiLower (Str carol) (Finite 12) t3 [Row alice 10 t1; Row bob 15 t2]
    = (Ok200 (ScoreBody carol 12), [Row alice 10 t1; Row bob 15 t2; Row carol 12 t3])
  /\ exists n,
       getRank asciiLower (Str carol) [Row alice 10 t1; Row bob 15 t2; Row carol 12 t3]
       = Ok200 (RankBody carol (Some n) 3 (Some 12%Z))
       /\ 1 <= n <= 3.
Proof.
  split; [reflexivity|].
  exact (rank_after_submission asciiLower (Str carol) (Finite 12) t3
           [Row alice 10 t1; Row bob 15 t2] (ScoreBody carol 12)
           [Row alice 10 t1; Row bob 15 t2; Row carol 12 t3] eq_refl).
Defined.

Lemma listing_shape_witness :
  let tbl := [Row alice 10 t1; Row bob 15 t2; Row carol 10 t3] in
  let rows := [Row bob 15 t2; Row alice 10 t1] in
  getLeaderboard (Finite 2) tbl = Ok200 rows
  /\ StronglySorted orderBy rows
  /\ rows ⊆+ tbl
  /\ length rows = Nat.min (Z.to_nat (Qfloor (clampLimit (Finite 2)))) (length tbl)
  /\ length rows <= 50.
Proof.
  intros tbl rows. split; [reflexivity|].
  exact (listing_shape (Finite 2) tbl rows eq_refl).
Defined.

Lemma listing_fails_iff_witness :
  (exists q, Finite 2.5 = Finite q /\ (1 < q)%Q /\ (q < 50)%Q
             /\ ~ (inject_Z (Qfloor q) == q)%Q)
  /\ status (getLeaderboard (Finite 2.5) [Row alice 10 t1]) = 500%Z
  /\ (isFinite NaN = false
      /\ getLeaderboard NaN [Row alice 10 t1]
         = Ok200 (take 20 (selectOrdered [Row alice 10 t1]))).
Proof.
  assert (exists q, Finite 2.5 = Finite q /\ (1 < q)%Q /\ (q < 50)%Q
                    /\ ~ (inject_Z (Qfloor q) == q)%Q) as Hq.
  { exists 2.5%Q. repeat split; by vm_compute. }
  split; [exact Hq|]. split.
  - exact (proj2 (proj1 (listing_fails_iff (Finite 2.5) [Row alice 10 t1])) Hq).
  - split; [reflexivity|].
    exact (proj2 (proj2 (listing_fails_iff NaN [Row alice 10 t1])) eq_refl).
Defined.

Lemma listed_rank_bound_witness :
  let s := run asciiLower id
    (threeSubmissions ++ [PostScore (Str (lit "dave")) (Finite 15) t2]) initial in
  let rows := [Row bob 15 t2; Row (lit "dave") 15 t2] in
  ((forall u, nameString u -> asciiLower u = u)
   /\ reachable asciiLower id s
   /\ getLeaderboard (Finite 2) (leaderboard s) = Ok200 rows
   /\ rows !! 1 = Some (Row (lit "dave") 15 t2))
  /\ exists n,
       getRank asciiLower (Str (lit "dave")) (leaderboard s)
       = Ok200 (RankBody (lit "dave") (Some n) (length (leaderboard s)) (Some 15%Z))
       /\ 1 <= n <= 2.
Proof.
  intros s rows.
  assert (reachable asciiLower id s) as Hs by (by eexists).
  split; [by repeat split; try apply NameFacts.asciiLower_name|].
  exact (listed_rank_bound asciiLower id NameFacts.asciiLower_name s (Finite 2) rows 1
           (Row (lit "dave") 15 t2) Hs eq_refl eq_refl).
Defined.

Lemma avatar_upload_then_lookup_witness :
  let form := AvatarForm (Str (lit "Alice")) (Str (lit " alice ")) (Some pngFile) in
  let dir := {[ avatarFilename alice := content textFile ]} : gmap (list N) (list N) in
  let r := postUploadAvatar asciiLower id form dir in
  (avatarFile form = Some pngFile
   /\ (N.of_nat (length (content pngFile)) <= fileSizeLimit)%N
   /\ safeUsername asciiLower (usernameField form)
      = safeUsername asciiLower (usernameAtFile form))
  /\ fst r = Ok200 (avatarUrl id (safeUsername asciiLower (usernameField form)))
  /\ snd r !! avatarFilename (safeUsername asciiLower (usernameAtFile form))
     = Some (content pngFile)
  /\ getAvatar asciiLower id (usernameField form) (snd r)
     = Ok200 (Some (avatarUrl id (safeUsername asciiLower (usernameAtFile form)))).
Proof.
  intros form dir r.
  assert (N.of_nat (length (content pngFile)) <= fileSizeLimit)%N as Hsize
    by (by vm_compute).
  split; [by repeat split|].
  destruct (avatar_upload_then_lookup asciiLower id form dir pngFile eq_refl Hsize)
    as (Hreply & Hfile & _ & Hlookup).
  split; [exact Hreply|]. split; [exact Hfile|]. exact (Hlookup eq_refl).
Defined.



Lemma face_upload_touches_one_file_witness :
  let form := FaceForm (Str (lit "Dad")) (Str (lit "Dad")) (Some pngFile) in
  let dir := {[ faceFilename (lit "Mom") := content pngFile ]} : gmap (list N) (list N) in
  faceFilename (lit "Mom") <> faceFilename (characterOf (characterAtFile form))
  /\ snd (postUploadFace id form dir) !! faceFilename (lit "Mom")
     = dir !! faceFilename (lit "Mom").
Proof.
  intros form dir.
  assert (faceFilename (lit "Mom") <> faceFilename (characterOf (characterAtFile form)))
    as Hne by differs.
  split; [exact Hne|].
  exact (face_upload_touches_one_file id form dir (faceFilename (lit "Mom")) Hne).
Defined.

Lemma faces_only_for_characters_witness :
  let forms :=
    [FaceForm (Str (lit " Dad ")) (Str (lit "Dad")) (Some pngFile);
     FaceForm (Str (lit "dad")) (Str (lit "dad")) (Some pngFile);
     FaceForm (Str (lit "Mom")) Undefined (Some textFile)] in
  is_Some (runFaces id forms ∅ !! lit "Mom.png")
  /\ exists c, c ∈ CHARACTERS /\ lit "Mom.png" = faceFilename c.
Proof.
  intros forms.
  assert (is_Some (runFaces id forms ∅ !! lit "Mom.png")) as Hsome.
  { exists (content textFile). by vm_compute. }
  split; [exact Hsome|].
  exact (faces_only_for_characters id forms (lit "Mom.png") Hsome).
Defined.

Lemma face_upload_then_listed_witness :
  let form := FaceForm (Str (lit " Laurel ")) (Str (lit "Laurel")) (Some pngFile) in
  let c := characterOf (characterAtFile form) in
  let dir' := snd (postUploadFace id form ∅) in
  (faceFile form = Some pngFile
   /\ (N.of_nat (length (content pngFile)) <= fileSizeLimit)%N
   /\ c ∈ CHARACTERS)
  /\ dir' !! faceFilename c = Some (content pngFile)
  /\ (exists l, getCharacters id dir' = Ok200 l
        /\ CharacterEntry c (Some (faceUrl id c)) ∈ l)
  /\ forall c', c' <> c ->
       findFaceForCharacter id c' dir' = findFaceForCharacter id c' ∅.
Proof.
  intros form c dir'.
  assert (N.of_nat (length (content pngFile)) <= fileSizeLimit)%N as Hsize
    by (by vm_compute).
  assert (c ∈ CHARACTERS) as Hc by member.
  split; [by repeat split|].
  exact (face_upload_then_listed id form ∅ pngFile eq_refl Hsize Hc).
Defined.

Lemma face_upload_status_witness :
  let stranger := FaceForm (Str (lit "Grandpa")) (Str (lit "Grandpa")) (Some pngFile) in
  let noFile := FaceForm Undefined (Str (lit " Dad ")) None in
  (faceFile stranger = Some pngFile
   /\ (characterOf (characterAtFile stranger) ∉ CHARACTERS)
   /\ faceFile noFile = None)
  /\ postUploadFace id stranger ∅ = (Err500 "Invalid character", ∅)
  /\ fst (postUploadFace id noFile ∅) = Ok200 (faceUrl id (lit "Dad"))
  /\ snd (postUploadFace id noFile ∅) = ∅.
Proof.
  intros stranger noFile.
  assert (characterOf (characterAtFile stranger) ∉ CHARACTERS) as Hout.
  { intros Hin. apply (bool_decide_pack _) in Hin. by vm_compute in Hin. }
  split; [by repeat split|].
  destruct (face_upload_status id stranger ∅) as (Hbad & _).
  destruct (face_upload_status id noFile ∅) as (_ & _ & Hreply & Hdir).
  split; [exact (Hbad pngFile eq_refl Hout)|].
  split; [exact (Hreply (or_introl eq_refl))|exact (Hdir eq_refl)].
Defined.

Lemma fileStem_safe_witness :
  Forall (fun c => Legacy.isNameCharI c = true) (lit "Mom_2")
  /\ Legacy.fileStem (Str (lit " ../etc/passwd ")) = lit "___etc_passwd"
  /\ (0x2F%N ∉ Legacy.fileStem (Str (lit " ../etc/passwd ")))
  /\ Legacy.safeChar (lit "Mom_2") = lit "Mom_2".
Proof.
  assert (Forall (fun c => Legacy.isNameCharI c = true) (lit "Mom_2")) as Hal
    by (by repeat constructor).
  destruct (LegacyFacts.fileStem_safe (Str (lit " ../etc/passwd ")) (lit "Mom_2"))
    as (_ & _ & Hslash & _ & Hfix & _).
  split; [exact Hal|]. split; [reflexivity|].
  split; [exact Hslash|exact (Hfix Hal)].
Defined.
